(** * Repository: a shallow embedding of the entity repository of the ORM

    The development follows [Repository.ts]: identity check ([hasId]),
    entity construction ([create], [merge]), the find-filter helper
    ([createFindQueryBuilder]) with [findOneById], and the operations that
    lease a query runner ([persist], [remove], [query], [transaction]). *)

From Stdlib Require Import List String Ascii ZArith Bool Lia.
Import ListNotations.
Open Scope string_scope.

(** ** JavaScript values and plain objects *)

(** A plain object is the list of its own enumerable string-keyed
    properties, in the order [Object.keys] enumerates them; a string is the
    sequence of its code units.  No value is callable.  A property read
    sees what the value holds itself; what a prototype adds are methods,
    which are not data. *)
#[warnings="-register-all"]
Inductive value : Type :=
| VUndefined
| VNull
| VBool (b : bool)
| VNumber (n : Z)
| VString (s : string)
| VObject (props : list (string * value)).

Definition ObjectLiteral : Type := list (string * value).

(** Result of evaluating a JavaScript expression or of settling a promise:
    a value, or a thrown value (a rejection). *)
Inductive outcome (A : Type) : Type :=
| Ok (a : A)
| Thrown (err : value).
Arguments Ok {A} a.
Arguments Thrown {A} err.

Definition TypeError : value := VString "TypeError".

Module Obj.

Fixpoint lookup (o : ObjectLiteral) (k : string) : option value :=
    match o with
    | [] => None
    | (k', v) :: o' => if String.eqb k' k then Some v else lookup o' k
    end.

  (** [o.hasOwnProperty(k)] *)
Definition hasOwnProperty (o : ObjectLiteral) (k : string) : bool :=
    match lookup o k with Some _ => true | None => false end.

  (** [o[k]] *)
Definition get (o : ObjectLiteral) (k : string) : value :=
    match lookup o k with Some v => v | None => VUndefined end.

  (** A decimal digit. *)
Definition digit (c : ascii) : option N :=
    let n := N_of_ascii c in
    if ((48 <=? n) && (n <=? 57))%N then Some (n - 48)%N else None.

Fixpoint decimal (s : string) (acc : N) : option N :=
    match s with
    | EmptyString => Some acc
    | String c s' =>
        match digit c with
        | Some d => decimal s' (10 * acc + d)%N
        | None => None
        end
    end.

  (** A key is an array index when it is the canonical decimal form of an
    integer from 0 to 2^32 - 2: no sign, no leading zero. *)
Definition array_index (k : string) : option N :=
    match k with
    | EmptyString => None
    | String c rest =>
        if Ascii.eqb c "0"
        then match rest with EmptyString => Some 0%N | _ => None end
        else match decimal k 0 with
             | Some n => if (n <? 4294967295)%N then Some n else None
             | None => None
             end
    end.

  (** An existing property takes the new value where it is. *)
Fixpoint replace (o : ObjectLiteral) (k : string) (v : value)
    : ObjectLiteral :=
    match o with
    | [] => []
    | (k', v') :: o' =>
        if String.eqb k' k then (k', v) :: o' else (k', v') :: replace o' k v
    end.

  (** A new array index goes among the array indices, which are enumerated
    first and in ascending order. *)
Fixpoint insert_index (n : N) (k : string) (v : value) (o : ObjectLiteral)
    : ObjectLiteral :=
    match o with
    | [] => [(k, v)]
    | (k', v') :: o' =>
        match array_index k' with
        | Some n' =>
            if (n' <? n)%N then (k', v') :: insert_index n k v o'
            else (k, v) :: o
        | None => (k, v) :: o
        end
    end.

  (** [o[k] = v]: an existing property keeps its place; a new one is
    enumerated last, unless its key is an array index. *)
Definition set (o : ObjectLiteral) (k : string) (v : value) : ObjectLiteral :=
    if hasOwnProperty o k then replace o k v
    else match array_index k with
         | Some n => insert_index n k v o
         | None => (o ++ [(k, v)])%list
         end.

  (** [Object.keys(o)] *)
Definition keys (o : ObjectLiteral) : list string := map fst o.

End Obj.

(** Strict comparisons against the three literals the code tests for. *)
Definition is_null (v : value) : bool :=
  match v with VNull => true | _ => false end.
Definition is_undefined (v : value) : bool :=
  match v with VUndefined => true | _ => false end.
Definition is_empty_string (v : value) : bool :=
  match v with VString EmptyString => true | _ => false end.

(** ** State and exceptions

    Code that reads or mutates one object is embedded by passing that object
    explicitly; a computation may also throw. *)
Definition M (S A : Type) : Type := S -> outcome A * S.

Definition ret {S A} (a : A) : M S A := fun s => (Ok a, s).
Definition throw {S A} (e : value) : M S A := fun s => (Thrown e, s).
Definition bind {S A B} (m : M S A) (f : A -> M S B) : M S B :=
  fun s => match m s with
           | (Ok a, s') => f a s'
           | (Thrown e, s') => (Thrown e, s')
           end.

Declare Scope st_scope.
Delimit Scope st_scope with st.
Notation "x <- m ;; k" := (bind m (fun x => k))
  (at level 100, m at next level, right associativity) : st_scope.

(** [a && b] with [b] evaluated only when [a] is true. *)
Definition and_then {S} (a b : M S bool) : M S bool :=
  bind a (fun x => if x then b else ret false).
Notation "a &&> b" := (and_then a b)
  (at level 41, right associativity) : st_scope.

(** [Array.prototype.every]: stops at the first element rejected. *)
Fixpoint every {S A} (f : A -> M S bool) (l : list A) : M S bool :=
  match l with
  | [] => ret true
  | x :: l' => bind (f x) (fun b => if b then every f l' else ret false)
  end.

(** [Array.prototype.forEach] *)
Fixpoint forEach {S A} (f : A -> M S unit) (l : list A) : M S unit :=
  match l with
  | [] => ret tt
  | x :: l' => bind (f x) (fun _ => forEach f l')
  end.

(** ** Metadata *)

Module Column.
Record t : Type := { propertyName : string; name : string }.
End Column.

Module Table.
Record t : Type := { name : string }.
End Table.

Definition Target : Type := string.

(** [EntityMetadata] is declared outside this file; the repository reads the
    members below.  [hasMultiplePrimaryKeys] and [firstPrimaryColumn] are
    getters of the metadata and are kept as independent members; [columns]
    stands for the properties the schema knows. *)
Record EntityMetadata : Type := {
  target : Target;
  table : Table.t;
  columns : list Column.t;
  primaryColumns : list Column.t;
  parentIdColumns : list Column.t;
  hasMultiplePrimaryKeys : bool;
  firstPrimaryColumn : option Column.t
}.

(** ** [hasId] *)

(** The [entity] parameter: an object by its type, [null] or [undefined] at
    run time. *)
Inductive EntityRef : Type :=
| EUndefined
| ENull
| EObject (o : ObjectLiteral).

(** [!!entity] *)
Definition entity_truthy : M EntityRef bool :=
  fun e => (Ok (match e with EObject _ => true | _ => false end), e).

(** The entity has a property of its own named [hasOwnProperty], which
    hides the method every object inherits. *)
Definition shadows_hasOwnProperty (e : EntityRef) : bool :=
  match e with
  | EObject o => Obj.hasOwnProperty o "hasOwnProperty"
  | _ => false
  end.

(** [entity.hasOwnProperty(k)]: the property is looked up on the entity and
    then called.  It is the inherited method unless the entity has a property
    of its own under that name, and no value is callable.  A TypeError on
    [null] and [undefined]. *)
Definition entity_hasOwnProperty (k : string) : M EntityRef bool :=
  fun e => match e with
           | EObject o =>
               if Obj.hasOwnProperty o "hasOwnProperty"
               then (Thrown TypeError, e)
               else (Ok (Obj.hasOwnProperty o k), e)
           | _ => (Thrown TypeError, e)
           end.

(** [entity[k]]: a TypeError on [null] and [undefined]. *)
Definition entity_get (k : string) : M EntityRef value :=
  fun e => match e with
           | EObject o => (Ok (Obj.get o k), e)
           | _ => (Thrown TypeError, e)
           end.

(** [entity[k] !== lit], for a literal recognised by [is_lit]. *)
Definition entity_differs (k : string) (is_lit : value -> bool)
  : M EntityRef bool :=
  bind (entity_get k) (fun v => ret (negb (is_lit v))).

Open Scope st_scope.

Definition hasId (metadata : EntityMetadata) : M EntityRef bool :=
  every (fun primaryColumn =>
           let columnName := Column.propertyName primaryColumn in
           entity_truthy &&>
           entity_hasOwnProperty columnName &&>
           entity_differs columnName is_null &&>
           entity_differs columnName is_undefined &&>
           entity_differs columnName is_empty_string)
        (primaryColumns metadata).

Close Scope st_scope.

(** What it means for an entity to hold an id. *)
Definition own_property (e : EntityRef) (k : string) : Prop :=
  match e with
  | EObject o => exists v, Obj.lookup o k = Some v
  | _ => False
  end.

Definition property (e : EntityRef) (k : string) : value :=
  match e with
  | EObject o => Obj.get o k
  | _ => VUndefined
  end.

Definition real_value (v : value) : Prop :=
  v <> VNull /\ v <> VUndefined /\ v <> VString EmptyString.

Definition id_present (e : EntityRef) (c : Column.t) : Prop :=
  own_property e (Column.propertyName c) /\
  real_value (property e (Column.propertyName c)).

Definition id_presentb (e : EntityRef) (c : Column.t) : bool :=
  match e with
  | EObject o =>
      match Obj.lookup o (Column.propertyName c) with
      | Some v => negb (is_null v) && negb (is_undefined v)
                  && negb (is_empty_string v)
      | None => false
      end
  | _ => false
  end.

(** ** [create] and [merge] *)

(** Modelled from the spec: [EntityMetadata.create], which is not among the
    sources at hand, returns a "new blank instance". *)
Definition metadata_create (metadata : EntityMetadata) : ObjectLiteral := [].

(** The schema knows property [k]. *)
Definition schema_knows (metadata : EntityMetadata) (k : string) : bool :=
  existsb (fun column => String.eqb (Column.propertyName column) k)
          (columns metadata).

(** Modelled from the spec: [PlainObjectToNewEntityTransformer.transform],
    which is not among the sources at hand, "copies only properties known to
    the metadata schema" from [object] into [newEntity]: one assignment per
    schema column whose property [object] owns.  The mutated [newEntity] is
    passed in and handed back. *)
Definition transform (newEntity object : ObjectLiteral)
    (metadata : EntityMetadata) : ObjectLiteral :=
  fold_left
    (fun entity column =>
       let p := Column.propertyName column in
       if Obj.hasOwnProperty object p
       then Obj.set entity p (Obj.get object p)
       else entity)
    (columns metadata) newEntity.

(** The argument of [create]: nothing, a plain object, or an array whose
    elements go through [create] again. *)
#[warnings="-register-all"]
Inductive PlainArg : Type :=
| NoObject
| PlainObject (o : ObjectLiteral)
| PlainObjects (objects : list PlainArg).

#[warnings="-register-all"]
Inductive Created : Type :=
| Entity (e : ObjectLiteral)
| Entities (es : list Created).

Fixpoint create (metadata : EntityMetadata) (plainObjectOrObjects : PlainArg)
  : Created :=
  match plainObjectOrObjects with
  | PlainObjects objects => Entities (map (create metadata) objects)
  | NoObject =>
      let newEntity := metadata_create metadata in
      Entity newEntity
  | PlainObject o =>
      let newEntity := metadata_create metadata in
      Entity (transform newEntity o metadata)
  end.

Definition merge (metadata : EntityMetadata) (objects : list ObjectLiteral)
  : ObjectLiteral :=
  let newEntity := metadata_create metadata in
  fold_left (fun entity object => transform entity object metadata)
            objects newEntity.

(** What one [transform] leaves under key [k]. *)
Definition overlay (metadata : EntityMetadata) (object : ObjectLiteral)
    (k : string) (before : option value) : option value :=
  if schema_knows metadata k
  then match Obj.lookup object k with Some v => Some v | None => before end
  else before.


(** ** Connection, find options and the query builder *)

Definition Driver : Type := nat.

Record Connection : Type := { driver : Driver }.

(** [FindOptions] is declared outside this file: an [alias], which its
    interface requires, and further settings (pagination, ordering, ...)
    that only [FindOptionsUtils] reads. *)
Record FindOptions : Type := { alias : string; settings : ObjectLiteral }.

(** Modelled from the spec: the [QueryBuilder] class and
    [FindOptionsUtils.applyOptionsToQueryBuilder] are not among the sources
    at hand.  A builder is represented by the connection it was made for and
    the calls made on it, in order; every builder method appends its call
    and hands the builder back. *)
Inductive QueryBuilderCall : Type :=
| QbSelect (selection : string)
| QbFrom (entityTarget : Target) (aliasName : string)
| QbApplyOptions (options : FindOptions)
| QbAndWhere (condition : string)
| QbAddParameters (parameters : ObjectLiteral).

Record QueryBuilder : Type := {
  qb_connection : Connection;
  qb_calls : list QueryBuilderCall
}.

Module QB.

Definition new (c : Connection) : QueryBuilder :=
  {| qb_connection := c; qb_calls := [] |}.

Definition invoke (qb : QueryBuilder) (c : QueryBuilderCall) : QueryBuilder :=
  {| qb_connection := qb_connection qb; qb_calls := qb_calls qb ++ [c] |}.

Definition select (qb : QueryBuilder) (selection : string) : QueryBuilder :=
  invoke qb (QbSelect selection).

Definition from (qb : QueryBuilder) (t : Target) (aliasName : string)
  : QueryBuilder :=
  invoke qb (QbFrom t aliasName).

Definition andWhere (qb : QueryBuilder) (condition : string) : QueryBuilder :=
  invoke qb (QbAndWhere condition).

Definition addParameters (qb : QueryBuilder) (parameters : ObjectLiteral)
  : QueryBuilder :=
  invoke qb (QbAddParameters parameters).

(** What was asked of a builder. *)
Definition aliases (qb : QueryBuilder) : list string :=
  flat_map (fun c => match c with QbFrom _ a => [a] | _ => [] end)
           (qb_calls qb).

Definition wheres (qb : QueryBuilder) : list string :=
  flat_map (fun c => match c with QbAndWhere w => [w] | _ => [] end)
           (qb_calls qb).

Definition parameters (qb : QueryBuilder) : list ObjectLiteral :=
  flat_map (fun c => match c with QbAddParameters p => [p] | _ => [] end)
           (qb_calls qb).

Definition appliedOptions (qb : QueryBuilder) : list FindOptions :=
  flat_map (fun c => match c with QbApplyOptions o => [o] | _ => [] end)
           (qb_calls qb).

End QB.

Definition applyOptionsToQueryBuilder (qb : QueryBuilder)
    (options : FindOptions) : QueryBuilder :=
  QB.invoke qb (QbApplyOptions options).

(** ** The repository *)

Definition QueryRunnerProvider : Type := nat.
Definition QueryRunner : Type := nat.

Record Repository : Type := {
  connection : Connection;
  metadata : EntityMetadata;
  queryRunnerProvider : option QueryRunnerProvider
}.

Definition createQueryBuilder (this : Repository) (aliasName : string)
  : QueryBuilder :=
  QB.from (QB.select (QB.new (connection this)) aliasName)
          (target (metadata this)) aliasName.

(** ** Find-filter resolution *)

(** [s.indexOf(sub)]: the first position at which [sub] occurs, [-1] when it
    does not occur. *)
Fixpoint indexOf_from (i : Z) (s sub : string) : Z :=
  if String.prefix sub s then i
  else match s with
       | EmptyString => (-1)%Z
       | String _ s' => indexOf_from (i + 1) s' sub
       end.

Definition indexOf (s sub : string) : Z := indexOf_from 0 s sub.

(** The first positional argument of the find methods, [Object|FindOptions];
    [FindOptionsUtils.isFindOptions], declared outside this file as the type
    guard [object is FindOptions], tells the two apart. *)
Inductive ConditionsOrFindOptions : Type :=
| Conditions (conditions : ObjectLiteral)
| Options (options : FindOptions).

Definition isFindOptions (a : option ConditionsOrFindOptions) : bool :=
  match a with Some (Options _) => true | _ => false end.

Definition asFindOptions (a : option ConditionsOrFindOptions)
  : option FindOptions :=
  match a with Some (Options o) => Some o | _ => None end.

Definition asConditions (a : option ConditionsOrFindOptions)
  : option ObjectLiteral :=
  match a with Some (Conditions c) => Some c | _ => None end.

Definition createFindQueryBuilder (this : Repository)
    (conditionsOrFindOptions : option ConditionsOrFindOptions)
    (options : option FindOptions) : QueryBuilder :=
  let findOptions :=
    if isFindOptions conditionsOrFindOptions
    then asFindOptions conditionsOrFindOptions else options in
  let conditions :=
    if isFindOptions conditionsOrFindOptions
    then None else asConditions conditionsOrFindOptions in
  let aliasName :=
    match findOptions with
    | Some findOptions => alias findOptions
    | None => Table.name (table (metadata this))
    end in
  let qb := createQueryBuilder this aliasName in
  let qb :=
    match findOptions with
    | Some findOptions => applyOptionsToQueryBuilder qb findOptions
    | None => qb
    end in
  match conditions with
  | Some conditions =>
      let qb :=
        fold_left
          (fun qb key =>
             let name :=
               if (indexOf key "." =? -1)%Z
               then aliasName ++ "." ++ key else key in
             QB.andWhere qb (name ++ "=:" ++ key))
          (Obj.keys conditions) qb in
      QB.addParameters qb conditions
  | None => qb
  end.

(** *** The helper in the words of its description *)

Definition has_separator (key : string) : bool :=
  existsb (Ascii.eqb ".") (list_ascii_of_string key).

Definition qualified (aliasName key : string) : string :=
  if has_separator key then key else aliasName ++ "." ++ key.

Definition equality_predicate (aliasName key : string) : string :=
  qualified aliasName key ++ "=:" ++ key.

(** The FindOptions argument, if any: the first argument when it is one,
    else the second. *)
Definition given_options (a : option ConditionsOrFindOptions)
    (options : option FindOptions) : option FindOptions :=
  match a with
  | Some (Options o) => Some o
  | _ => options
  end.

Definition resolved_alias (this : Repository)
    (a : option ConditionsOrFindOptions) (options : option FindOptions)
  : string :=
  match given_options a options with
  | Some o => alias o
  | None => Table.name (table (metadata this))
  end.

(** The calls the helper makes on its builder, step by step as the
    description lists them. *)
Definition resolution_calls (this : Repository)
    (a : option ConditionsOrFindOptions) (options : option FindOptions)
  : list QueryBuilderCall :=
  let aliasName := resolved_alias this a options in
  ([QbSelect aliasName; QbFrom (target (metadata this)) aliasName]
   ++ match given_options a options with
      | Some o => [QbApplyOptions o]
      | None => []
      end
   ++ match asConditions a with
      | Some conditions =>
          map (fun key => QbAndWhere (equality_predicate aliasName key))
              (Obj.keys conditions)
          ++ [QbAddParameters conditions]
      | None => []
      end)%list.

(** ** [findOneById]: the conditions *)

(** What a string holds itself: its [length] and, under each array index
    within it, the character there. *)
Definition string_property (s k : string) : value :=
  if String.eqb k "length" then VNumber (Z.of_nat (String.length s))
  else match Obj.array_index k with
       | Some n =>
           match String.get (N.to_nat n) s with
           | Some c => VString (String c EmptyString)
           | None => VUndefined
           end
       | None => VUndefined
       end.

(** [id[k]] for [id : any]: a TypeError on [null] and [undefined]; otherwise
    what the value holds itself under [k]: the own property of an object,
    the length or a character of a string, nothing on a number or a
    boolean. *)
Definition any_get {S} (id : value) (k : string) : M S value :=
  match id with
  | VObject o => ret (Obj.get o k)
  | VUndefined | VNull => throw TypeError
  | VString s => ret (string_property s k)
  | VBool _ | VNumber _ => ret VUndefined
  end.

(** [conditions[k] = v] *)
Definition assign (k : string) (v : value) : M ObjectLiteral unit :=
  fun conditions => (Ok tt, Obj.set conditions k v).

(** [c.name] for a possibly undefined column [c]. *)
Definition column_name {S} (c : option Column.t) : M S string :=
  match c with
  | Some c => ret (Column.name c)
  | None => throw TypeError
  end.

Open Scope st_scope.

(** Lines 297-311: the statements that fill [conditions]. *)
Definition findOneById_fill (metadata : EntityMetadata) (id : value)
  : M ObjectLiteral unit :=
  if hasMultiplePrimaryKeys metadata then
    _ <- forEach (fun primaryColumn =>
                    v <- any_get id (Column.name primaryColumn) ;;
                    assign (Column.name primaryColumn) v)
                 (primaryColumns metadata) ;;
    forEach (fun primaryColumn =>
               v <- any_get id (Column.propertyName primaryColumn) ;;
               assign (Column.name primaryColumn) v)
            (parentIdColumns metadata)
  else if (0 <? List.length (primaryColumns metadata))%nat then
    k <- column_name (firstPrimaryColumn metadata) ;;
    assign k id
  else if (0 <? List.length (parentIdColumns metadata))%nat then
    k <- column_name (nth_error (parentIdColumns metadata) 0) ;;
    assign k id
  else ret tt.

Close Scope st_scope.

(** The conditions object as it stands when [createFindQueryBuilder] is
    called, or the error thrown on the way. *)
Definition findOneById_conditions (metadata : EntityMetadata) (id : value)
  : outcome ObjectLiteral :=
  match findOneById_fill metadata id [] with
  | (Ok _, conditions) => Ok conditions
  | (Thrown e, _) => Thrown e
  end.

(** ** Calls to the collaborators

    The query-runner provider, the query runner, the entity persister and
    the execution methods of the query builder live outside this file.  An
    operation of the repository is a tree of the calls it makes on them:
    every call is answered with a result or an error, and the operation goes
    on from the answer. *)

Inductive call : Type :=
| NewQueryRunnerProvider (d : Driver) (useSingleQueryRunner : option bool)
| Provide (p : QueryRunnerProvider)
| Release (p : QueryRunnerProvider) (r : QueryRunner)
| ReleaseReused (p : QueryRunnerProvider)
| BeginTransaction (r : QueryRunner)
| CommitTransaction (r : QueryRunner)
| RollbackTransaction (r : QueryRunner)
| RunnerQuery (r : QueryRunner) (query : string)
| PersisterPersist (c : Connection) (m : EntityMetadata) (r : QueryRunner)
                   (entity : ObjectLiteral)
| PersisterRemove (c : Connection) (m : EntityMetadata) (r : QueryRunner)
                  (entity : ObjectLiteral)
| GetResults (qb : QueryBuilder)
| GetResultsAndCount (qb : QueryBuilder)
| GetSingleResult (qb : QueryBuilder)
| TransformToDatabaseEntity (object : ObjectLiteral) (m : EntityMetadata)
                            (qb : QueryBuilder)
| UserCall (what : value).

(** What a call answers with when it does not throw. *)
Definition answer (c : call) : Type :=
  match c with
  | NewQueryRunnerProvider _ _ => QueryRunnerProvider
  | Provide _ => QueryRunner
  | Release _ _ | ReleaseReused _ => unit
  | BeginTransaction _ | CommitTransaction _ | RollbackTransaction _ => unit
  | _ => value
  end.

Inductive prog (A : Type) : Type :=
| Ret (a : A)
| Throw (e : value)
| Vis (c : call) (k : outcome (answer c) -> prog A).
Arguments Ret {A} a.
Arguments Throw {A} e.
Arguments Vis {A} c k.

(** [await c]: the answer, or the error rethrown. *)
Definition perform (c : call) : prog (answer c) :=
  Vis c (fun r => match r with Ok a => Ret a | Thrown e => Throw e end).

Fixpoint pbind {A B} (m : prog A) (f : A -> prog B) : prog B :=
  match m with
  | Ret a => f a
  | Throw e => Throw e
  | Vis c k => Vis c (fun r => pbind (k r) f)
  end.

(** [try { m } catch (err) { handler err }] *)
Fixpoint try_catch {A} (m : prog A) (handler : value -> prog A) : prog A :=
  match m with
  | Ret a => Ret a
  | Throw e => handler e
  | Vis c k => Vis c (fun r => try_catch (k r) handler)
  end.

(** [try { m } finally { cleanup }]: [cleanup] runs on both exits; an error
    it throws replaces the outcome of [m]. *)
Fixpoint try_finally {A} (m : prog A) (cleanup : prog unit) : prog A :=
  match m with
  | Ret a => pbind cleanup (fun _ => Ret a)
  | Throw e => pbind cleanup (fun _ => Throw e)
  | Vis c k => Vis c (fun r => try_finally (k r) cleanup)
  end.

Declare Scope prog_scope.
Delimit Scope prog_scope with prog.
Notation "x <- m ;; k" := (pbind m (fun x => k))
  (at level 100, m at next level, right associativity) : prog_scope.
Notation "m ;;; k" := (pbind m (fun _ => k))
  (at level 100, right associativity) : prog_scope.

(** *** Running an operation against the collaborators

    The collaborators are a world [W] and a function answering each call in
    a world.  A run returns the outcome, the world left behind and the calls
    made, in order. *)
Definition handler (W : Type) : Type :=
  forall c : call, W -> outcome (answer c) * W.

Fixpoint run {W A} (h : handler W) (m : prog A) (w : W)
  : outcome A * W * list call :=
  match m with
  | Ret a => (Ok a, w, [])
  | Throw e => (Thrown e, w, [])
  | Vis c k =>
      let '(r, w1) := h c w in
      let '(res, w2, calls) := run h (k r) w1 in
      (res, w2, c :: calls)
  end.

(** ** Operations that lease a query runner *)

Open Scope prog_scope.

(** [this.queryRunnerProvider || new QueryRunnerProvider(driver, flag)] *)
Definition provider_or_new (this : Repository) (flag : option bool)
  : prog QueryRunnerProvider :=
  match queryRunnerProvider this with
  | Some p => Ret p
  | None => perform (NewQueryRunnerProvider (driver (connection this)) flag)
  end.

(** Lines 152-165: [persist] on one entity. *)
Definition persist_entity (this : Repository) (entity : ObjectLiteral)
  : prog value :=
  queryRunnerProvider <- provider_or_new this None ;;
  queryRunner <- perform (Provide queryRunnerProvider) ;;
  try_finally
    (perform (PersisterPersist (connection this) (metadata this)
                               queryRunner entity))
    (perform (Release queryRunnerProvider queryRunner)).

(** Lines 187-195: [remove] on one entity. *)
Definition remove_entity (this : Repository) (entity : ObjectLiteral)
  : prog value :=
  queryRunnerProvider <- provider_or_new this (Some true) ;;
  queryRunner <- perform (Provide queryRunnerProvider) ;;
  try_finally
    (perform (PersisterRemove (connection this) (metadata this)
                              queryRunner entity))
    (perform (Release queryRunnerProvider queryRunner)).

Definition query (this : Repository) (sql : string) : prog value :=
  queryRunnerProvider <- provider_or_new this None ;;
  queryRunner <- perform (Provide queryRunnerProvider) ;;
  try_finally
    (perform (RunnerQuery queryRunner sql))
    (perform (Release queryRunnerProvider queryRunner)).

(** The [finally] block of [transaction]. *)
Definition transaction_cleanup (this : Repository)
    (queryRunnerProvider0 : QueryRunnerProvider) (queryRunner : QueryRunner)
  : prog unit :=
  perform (Release queryRunnerProvider0 queryRunner) ;;;
  match queryRunnerProvider this with
  | None => perform (ReleaseReused queryRunnerProvider0)
  | Some _ => Ret tt
  end.

(** The [try] block and its [catch] clause. *)
Definition transaction_body (queryRunner : QueryRunner)
    (runInTransaction : Repository -> prog value)
    (transactionRepository : Repository) : prog value :=
  try_catch
    (perform (BeginTransaction queryRunner) ;;;
     result <- runInTransaction transactionRepository ;;
     perform (CommitTransaction queryRunner) ;;;
     Ret result)
    (fun err =>
       perform (RollbackTransaction queryRunner) ;;;
       Throw err).

Definition transaction (this : Repository)
    (runInTransaction : Repository -> prog value) : prog value :=
  queryRunnerProvider0 <- provider_or_new this (Some true) ;;
  queryRunner <- perform (Provide queryRunnerProvider0) ;;
  let transactionRepository :=
    {| connection := connection this;
       metadata := metadata this;
       queryRunnerProvider := Some queryRunnerProvider0 |} in
  try_finally
    (transaction_body queryRunner runInTransaction transactionRepository)
    (transaction_cleanup this queryRunnerProvider0 queryRunner).

(** ** The find methods *)

Definition find (this : Repository)
    (conditionsOrFindOptions : option ConditionsOrFindOptions)
    (options : option FindOptions) : prog value :=
  perform (GetResults
             (createFindQueryBuilder this conditionsOrFindOptions options)).

Definition findAndCount (this : Repository)
    (conditionsOrFindOptions : option ConditionsOrFindOptions)
    (options : option FindOptions) : prog value :=
  perform (GetResultsAndCount
             (createFindQueryBuilder this conditionsOrFindOptions options)).

Definition findOne (this : Repository)
    (conditionsOrFindOptions : option ConditionsOrFindOptions)
    (options : option FindOptions) : prog value :=
  perform (GetSingleResult
             (createFindQueryBuilder this conditionsOrFindOptions options)).

(** [preload]: the work is done by
    [PlainObjectToDatabaseEntityTransformer.transform]. *)
Definition preload (this : Repository) (object : ObjectLiteral) : prog value :=
  let queryBuilder :=
    createQueryBuilder this (Table.name (table (metadata this))) in
  perform (TransformToDatabaseEntity object (metadata this) queryBuilder).

Definition findOneById (this : Repository) (id : value)
    (options : option FindOptions) : prog value :=
  match findOneById_conditions (metadata this) id with
  | Ok conditions =>
      perform (GetSingleResult
                 (createFindQueryBuilder this (Some (Conditions conditions))
                                         options))
  | Thrown e => Throw e
  end.

Close Scope prog_scope.

(** ** Sample data *)

Definition column (propertyName name : string) : Column.t :=
  {| Column.propertyName := propertyName; Column.name := name |}.

(** A schema with the properties [x] and [y], keyed by [x]. *)
Definition example_metadata_xy : EntityMetadata :=
  {| target := "Point";
     table := {| Table.name := "point" |};
     columns := [column "x" "x"; column "y" "y"];
     primaryColumns := [column "x" "x"];
     parentIdColumns := [];
     hasMultiplePrimaryKeys := false;
     firstPrimaryColumn := Some (column "x" "x") |}.

(** A single-table child keyed by two columns of its own and its parent's
    id; no column is named like its property. *)
Definition example_metadata_composite : EntityMetadata :=
  {| target := "Membership";
     table := {| Table.name := "membership" |};
     columns := [column "firstId" "first_id"; column "secondId" "second_id"];
     primaryColumns :=
       [column "firstId" "first_id"; column "secondId" "second_id"];
     parentIdColumns := [column "parentId" "parent_id"];
     hasMultiplePrimaryKeys := true;
     firstPrimaryColumn := Some (column "firstId" "first_id") |}.

(** A single-table child keyed by its parent's id only. *)
Definition example_metadata_child : EntityMetadata :=
  {| target := "Student";
     table := {| Table.name := "person" |};
     columns := [column "name" "name"];
     primaryColumns := [];
     parentIdColumns := [column "parentId" "parent_id"];
     hasMultiplePrimaryKeys := false;
     firstPrimaryColumn := None |}.

Definition example_connection : Connection := {| driver := 0 |}.

Definition example_repository (m : EntityMetadata)
    (p : option QueryRunnerProvider) : Repository :=
  {| connection := example_connection; metadata := m;
     queryRunnerProvider := p |}.

(** ** Reading runs *)

(** The outcome of [try { ... } finally { ... }] from the outcome of the
    block and the outcome of the cleanup. *)
Definition after_cleanup {A B} (res : outcome A) (cleanup : outcome B)
  : outcome A :=
  match cleanup with
  | Ok _ => res
  | Thrown e => Thrown e
  end.

(** The repository [this] obtains provider [p] and leases runner [r] from it:
    [p] is the provider given at construction, or a new one made with
    [flag]; [provide] answers [r]; [pre] are the calls made and [w1] the
    world they leave. *)
Definition leased {W} (h : handler W) (this : Repository) (flag : option bool)
    (w : W) (p : QueryRunnerProvider) (r : QueryRunner) (w1 : W)
    (pre : list call) : Prop :=
  exists w0,
    match queryRunnerProvider this with
    | Some p0 => p = p0 /\ w0 = w /\ pre = [Provide p]
    | None =>
        let new := NewQueryRunnerProvider (driver (connection this)) flag in
        h new w = (Ok p, w0) /\ pre = [new; Provide p]
    end /\
    h (Provide p) w0 = (Ok r, w1).

Definition is_release (c : call) : bool :=
  match c with Release _ _ => true | _ => false end.

Definition is_provide (c : call) : bool :=
  match c with Provide _ => true | _ => false end.

(** The repository that [transaction] hands to its work function. *)
Definition scoped (this : Repository) (p : QueryRunnerProvider) : Repository :=
  {| connection := connection this;
     metadata := metadata this;
     queryRunnerProvider := Some p |}.

(** The calls of the [finally] block of [transaction] when [release]
    returns. *)
Definition releases (this : Repository) (p : QueryRunnerProvider)
    (r : QueryRunner) : list call :=
  Release p r ::
  match queryRunnerProvider this with
  | None => [ReleaseReused p]
  | Some _ => []
  end.

(** Both cleanup calls return: [release], and [releaseReused] when it is
    made. *)
Definition cleanup_returns {W} (h : handler W) (this : Repository)
    (p : QueryRunnerProvider) (r : QueryRunner) (w w' : W) : Prop :=
  exists w3,
    h (Release p r) w = (Ok tt, w3) /\
    match queryRunnerProvider this with
    | None => h (ReleaseReused p) w3 = (Ok tt, w')
    | Some _ => w' = w3
    end.

(** One lease around one delegate call [d]: the calls are those of the
    acquisition, then [d], then the release; one [provide], one [release]. *)
Definition lease_cycle (calls pre : list call) (d : call)
    (p : QueryRunnerProvider) (r : QueryRunner) : Prop :=
  calls = (pre ++ [d; Release p r])%list /\
  filter is_provide calls = [Provide p] /\
  filter is_release calls = [Release p r].

(** ** Sample collaborators

    A world that counts the calls it has answered.  A call listed by [fails]
    throws the listed error; any other call returns. *)
Definition default_answer (c : call) : answer c :=
  match c as c0 return answer c0 with
  | NewQueryRunnerProvider _ _ => 7
  | Provide p => 100 + p
  | Release _ _ => tt
  | ReleaseReused _ => tt
  | BeginTransaction _ => tt
  | CommitTransaction _ => tt
  | RollbackTransaction _ => tt
  | RunnerQuery _ q => VString q
  | PersisterPersist _ _ _ e => VObject e
  | PersisterRemove _ _ _ e => VObject e
  | GetResults _ => VNull
  | GetResultsAndCount _ => VNull
  | GetSingleResult _ => VNull
  | TransformToDatabaseEntity o _ _ => VObject o
  | UserCall v => v
  end.

Definition mock (fails : call -> option value) : handler nat :=
  fun c w =>
    match fails c with
    | Some e => (Thrown e, S w)
    | None => (Ok (default_answer c), S w)
    end.

Definition never_fails (c : call) : option value := None.

Definition begin_fails (c : call) : option value :=
  match c with
  | BeginTransaction _ => Some (VString "begin failed")
  | _ => None
  end.

Definition rollback_fails (c : call) : option value :=
  match c with
  | RollbackTransaction _ => Some (VString "rollback failed")
  | _ => None
  end.

Definition point : ObjectLiteral := [("x", VNumber 1); ("y", VNumber 2)].

(** [async repo => repo.persist(point)] *)
Definition work_persists (repo : Repository) : prog value :=
  persist_entity repo point.

(** [async repo => { await repo.persist(point); throw "Error" }] *)
Definition work_persists_then_throws (repo : Repository) : prog value :=
  pbind (persist_entity repo point) (fun _ => Throw (VString "Error")).

Definition persist_fails (c : call) : option value :=
  match c with
  | PersisterPersist _ _ _ _ => Some (VString "constraint violated")
  | _ => None
  end.

Definition example_repository_composite : Repository :=
  example_repository example_metadata_composite None.

(** A repository constructed without a provider, and the lease its
    operations obtain from [mock]: provider 7, runner 107. *)
Definition standalone : Repository :=
  example_repository example_metadata_xy None.

Definition standalone_lease (flag : option bool) : list call :=
  [NewQueryRunnerProvider 0 flag; Provide 7].

(** The calls [work_persists] makes through the scoped repository. *)
Definition nested_persist_calls : list call :=
  [Provide 7;
   PersisterPersist example_connection example_metadata_xy 107 point;
   Release 7 107].

(** ** [persist] and [remove] on one entity or on an array

    [Promise.all] over the mapped array is a pool of sibling operations that
    advance in any order; an operation on one entity is a single promise. *)

Inductive EntityOrEntities : Type :=
| OneEntity (entity : ObjectLiteral)
| ManyEntities (entities : list ObjectLiteral).

Inductive Async : Type :=
| Single (m : prog value)
| PromiseAll (siblings : list (prog value)).

Definition persist (this : Repository) (entityOrEntities : EntityOrEntities)
  : Async :=
  match entityOrEntities with
  | ManyEntities entities =>
      PromiseAll (map (fun entity => persist_entity this entity) entities)
  | OneEntity entity => Single (persist_entity this entity)
  end.

Definition remove (this : Repository) (entityOrEntities : EntityOrEntities)
  : Async :=
  match entityOrEntities with
  | ManyEntities entities =>
      PromiseAll (map (fun entity => remove_entity this entity) entities)
  | OneEntity entity => Single (remove_entity this entity)
  end.

(** *** [Promise.all]

    The combinator keeps one slot per input promise and its own promise:
    a fulfilment fills its slot and, when it fills the last one, fulfils the
    promise with the slots in input order; a rejection rejects the promise;
    a promise already settled stays as it is. *)

Fixpoint set_nth {A} (i : nat) (x : A) (l : list A) : list A :=
  match l, i with
  | [], _ => []
  | _ :: l', O => x :: l'
  | y :: l', S i' => y :: set_nth i' x l'
  end.

Fixpoint all_some {A} (l : list (option A)) : option (list A) :=
  match l with
  | [] => Some []
  | Some x :: l' =>
      match all_some l' with Some xs => Some (x :: xs) | None => None end
  | None :: _ => None
  end.

Record Joined : Type := {
  slots : list (option value);
  aggregate : option (outcome (list value))
}.

Definition join_start (n : nat) : Joined :=
  {| slots := repeat None n;
     aggregate := match n with O => Some (Ok []) | S _ => None end |}.

Definition on_fulfilled (i : nat) (v : value) (j : Joined) : Joined :=
  let slots' := set_nth i (Some v) (slots j) in
  {| slots := slots';
     aggregate :=
       match aggregate j with
       | Some settled => Some settled
       | None =>
           match all_some slots' with
           | Some vs => Some (Ok vs)
           | None => None
           end
       end |}.

Definition on_rejected (e : value) (j : Joined) : Joined :=
  {| slots := slots j;
     aggregate :=
       match aggregate j with
       | Some settled => Some settled
       | None => Some (Thrown e)
       end |}.

(** *** Sibling operations

    A sibling is running, at some point of its call tree, or settled.  In one
    step the sibling chosen makes its next call and takes the answer, or,
    having no call left, settles and is observed by [Promise.all].  No step
    looks at the aggregate promise: nothing cancels a sibling. *)

Inductive task : Type :=
| Running (m : prog value)
| Settled (res : outcome value).

(** What the run of a pool records: each call with the answer it got, and
    each settlement. *)
Inductive event : Type :=
| Called (i : nat) (c : call) (a : outcome (answer c))
| SettledAt (i : nat) (res : outcome value).

Record pool : Type := { tasks : list task; joined : Joined }.

Definition promise_all (siblings : list (prog value)) : pool :=
  {| tasks := map Running siblings;
     joined := join_start (List.length siblings) |}.

Definition step {W} (h : handler W) (i : nat) (pl : pool) (w : W)
  : pool * W * list event :=
  match nth_error (tasks pl) i with
  | Some (Running (Vis c k)) =>
      let '(r, w') := h c w in
      ({| tasks := set_nth i (Running (k r)) (tasks pl);
          joined := joined pl |}, w', [Called i c r])
  | Some (Running (Ret v)) =>
      ({| tasks := set_nth i (Settled (Ok v)) (tasks pl);
          joined := on_fulfilled i v (joined pl) |}, w,
       [SettledAt i (Ok v)])
  | Some (Running (Throw e)) =>
      ({| tasks := set_nth i (Settled (Thrown e)) (tasks pl);
          joined := on_rejected e (joined pl) |}, w,
       [SettledAt i (Thrown e)])
  | Some (Settled _) | None => (pl, w, [])
  end.

(** The pool after the steps of a schedule: the siblings chosen, in order. *)
Fixpoint run_pool {W} (h : handler W) (schedule : list nat) (pl : pool)
    (w : W) : pool * W * list event :=
  match schedule with
  | [] => (pl, w, [])
  | i :: schedule' =>
      let '(pl1, w1, events1) := step h i pl w in
      let '(pl2, w2, events2) := run_pool h schedule' pl1 w1 in
      (pl2, w2, (events1 ++ events2)%list)
  end.

(** The calls sibling [i] made. *)
Definition calls_of (i : nat) (events : list event) : list call :=
  flat_map (fun ev => match ev with
                      | Called j c _ => if Nat.eqb j i then [c] else []
                      | SettledAt _ _ => []
                      end) events.

(** A call with the answer it got. *)
Definition reply : Type := {c : call & outcome (answer c)}.

Definition answered (c : call) (a : outcome (answer c)) : reply :=
  existT (fun c => outcome (answer c)) c a.

(** The calls sibling [i] made, each with its answer. *)
Definition replies_of (i : nat) (events : list event) : list reply :=
  flat_map (fun ev => match ev with
                      | Called j c a =>
                          if Nat.eqb j i then [answered c a] else []
                      | SettledAt _ _ => []
                      end) events.

(** The error of the first rejection observed. *)
Fixpoint first_rejection (events : list event) : option value :=
  match events with
  | [] => None
  | SettledAt _ (Thrown e) :: _ => Some e
  | _ :: events' => first_rejection events'
  end.

(** *** The cycle of one sibling *)

Inductive Operation : Type := Persisting | Removing.

Definition operation_on (this : Repository) (op : Operation)
    (entity : ObjectLiteral) : prog value :=
  match op with
  | Persisting => persist_entity this entity
  | Removing => remove_entity this entity
  end.

Definition fan_out (this : Repository) (op : Operation)
    (entities : list ObjectLiteral) : Async :=
  match op with
  | Persisting => persist this (ManyEntities entities)
  | Removing => remove this (ManyEntities entities)
  end.

Definition provider_flag (op : Operation) : option bool :=
  match op with Persisting => None | Removing => Some true end.

Definition delegate_call (this : Repository) (op : Operation)
    (r : QueryRunner) (entity : ObjectLiteral) : call :=
  match op with
  | Persisting =>
      PersisterPersist (connection this) (metadata this) r entity
  | Removing =>
      PersisterRemove (connection this) (metadata this) r entity
  end.

(** The answer of the persister as the result of the delegated
    operation. *)
Definition delegate_outcome (this : Repository) (op : Operation)
    (r : QueryRunner) (entity : ObjectLiteral)
  : outcome (answer (delegate_call this op r entity)) -> outcome value :=
  match op as o
        return outcome (answer (delegate_call this o r entity))
               -> outcome value
  with
  | Persisting => fun d => d
  | Removing => fun d => d
  end.

(** The provider [p] is the one the repository was given, if any. *)
Definition uses_provider (this : Repository) (p : QueryRunnerProvider)
  : Prop :=
  match queryRunnerProvider this with
  | Some p0 => p = p0
  | None => True
  end.

(** Before [provide]: a repository without a provider makes one, [p]. *)
Definition makes_provider (this : Repository) (flag : option bool)
    (p : QueryRunnerProvider) : list reply :=
  match queryRunnerProvider this with
  | Some _ => []
  | None =>
      [answered (NewQueryRunnerProvider (driver (connection this)) flag)
                (Ok p)]
  end.

(** What a settled sibling has done, call by call and answer by answer.
    Once [provide] has answered with a runner, the sibling delegates to the
    persister on that runner and then releases it, whatever the persister
    answered, and settles as the delegated operation did, or as the release
    did when that threw.  When [provide] threw, or the provider could not be
    made, nothing follows and the sibling rejects with that error. *)
Definition cycle (this : Repository) (op : Operation) (entity : ObjectLiteral)
    (replies : list reply) (res : outcome value) : Prop :=
  let flag := provider_flag op in
  (exists p r d rel,
      uses_provider this p /\
      replies = (makes_provider this flag p ++
                 [answered (Provide p) (Ok r);
                  answered (delegate_call this op r entity) d;
                  answered (Release p r) rel])%list /\
      res = after_cleanup (delegate_outcome this op r entity d) rel) \/
  (exists p e,
      uses_provider this p /\
      replies = (makes_provider this flag p ++
                 [answered (Provide p) (Thrown e)])%list /\
      res = Thrown e) \/
  (exists e,
      queryRunnerProvider this = None /\
      replies = [answered (NewQueryRunnerProvider
                             (driver (connection this)) flag) (Thrown e)] /\
      res = Thrown e).

(** Every sibling below [n] is scheduled at least [k] times. *)
Definition schedules_each (k n : nat) (schedule : list nat) : Prop :=
  forall i, (i < n)%nat -> (k <= count_occ Nat.eq_dec schedule i)%nat.

(** Round-robin: [k] rounds over [n] siblings. *)
Fixpoint round_robin (k n : nat) : list nat :=
  match k with
  | O => []
  | S k' => (seq 0 n ++ round_robin k' n)%list
  end.

(** The slot [Promise.all] holds for a sibling. *)
Definition slot_of (t : task) : option value :=
  match t with
  | Settled (Ok v) => Some v
  | _ => None
  end.

Definition is_rejected (t : task) : bool :=
  match t with
  | Settled (Thrown _) => true
  | _ => false
  end.

Definition leaf (res : outcome value) : prog value :=
  match res with
  | Ok v => Ret v
  | Thrown e => Throw e
  end.

(** [follows m calls m']: making [calls], each answered somehow, leads from
    [m] to [m']. *)
Fixpoint follows (m : prog value) (calls : list call) (m' : prog value)
    {struct calls} : Prop :=
  match calls with
  | [] => m = m'
  | c :: calls' =>
      match m with
      | Vis c0 k => c0 = c /\ exists r, follows (k r) calls' m'
      | _ => False
      end
  end.

(** [trail m replies m']: making the calls of [replies], each answered as
    recorded there, leads from [m] to [m']. *)
Fixpoint trail (m : prog value) (replies : list reply) (m' : prog value)
    {struct replies} : Prop :=
  match replies with
  | [] => m = m'
  | rp :: replies' =>
      match m with
      | Vis c k => exists a, rp = answered c a /\ trail (k a) replies' m'
      | _ => False
      end
  end.

(** [within n m]: [m] makes at most [n] calls, whatever the answers. *)
Fixpoint within (n : nat) (m : prog value) {struct m} : Prop :=
  match m with
  | Vis c k =>
      match n with
      | O => False
      | S n' => forall r, within n' (k r)
      end
  | _ => True
  end.

(** Where sibling [i] stands after [events], having started as [m0]. *)
Definition stands (m0 : prog value) (i : nat) (pl : pool)
    (events : list event) : Prop :=
  exists m',
    trail m0 (replies_of i events) m' /\
    (nth_error (tasks pl) i = Some (Running m') \/
     exists res, nth_error (tasks pl) i = Some (Settled res) /\
                 m' = leaf res).

(** What ties the aggregate promise to the siblings and to the events. *)
Definition joined_by (pl : pool) (events : list event) : Prop :=
  slots (joined pl) = map slot_of (tasks pl) /\
  aggregate (joined pl)
  = match first_rejection events with
    | Some e => Some (Thrown e)
    | None => option_map Ok (all_some (slots (joined pl)))
    end /\
  (existsb is_rejected (tasks pl) = true
   <-> first_rejection events <> None).

Definition persist_fails_on_empty (c : call) : option value :=
  match c with
  | PersisterPersist _ _ _ [] => Some (VString "nothing to persist")
  | _ => None
  end.

(** The repository fails to lease a runner: making the provider throws, or
    [provide] does. *)
Definition lease_fails {W} (h : handler W) (this : Repository)
    (flag : option bool) (w : W) (e : value) (w' : W) (pre : list call)
  : Prop :=
  match queryRunnerProvider this with
  | Some p => h (Provide p) w = (Thrown e, w') /\ pre = [Provide p]
  | None =>
      let new := NewQueryRunnerProvider (driver (connection this)) flag in
      (h new w = (Thrown e, w') /\ pre = [new]) \/
      (exists p w0, h new w = (Ok p, w0) /\
                    h (Provide p) w0 = (Thrown e, w') /\
                    pre = [new; Provide p])
  end.

(** * Further definitions *)

(** ** Plain objects *)



(** The columns [findOneById] reads on a composite key, in reading order. *)
Definition key_columns (metadata : EntityMetadata) : list Column.t :=
  (primaryColumns metadata ++ parentIdColumns metadata)%list.


Definition is_nullish (id : value) : Prop :=
  match id with
  | VUndefined | VNull => True
  | _ => False
  end.

(** One assignment [conditions[c.name] = f c] per column, in order. *)
Definition bind_columns (f : Column.t -> value) (cols : list Column.t)
    (conditions : ObjectLiteral) : ObjectLiteral :=
  fold_left (fun conditions c => Obj.set conditions (Column.name c) (f c))
            cols conditions.

(** An entity type without any key column. *)
Definition example_metadata_keyless : EntityMetadata :=
  {| target := "Log";
     table := {| Table.name := "log" |};
     columns := [column "line" "line"];
     primaryColumns := [];
     parentIdColumns := [];
     hasMultiplePrimaryKeys := false;
     firstPrimaryColumn := None |}.


(** ** Call trees *)

(** Every call [m] can make satisfies [P]. *)
Fixpoint only_calls (P : call -> bool) (m : prog value) : Prop :=
  match m with
  | Vis c k => P c = true /\ forall r, only_calls P (k r)
  | _ => True
  end.

(** Whatever the answers, [m] makes at most [n] calls that satisfy [P]. *)
Fixpoint at_most (P : call -> bool) (n : nat) (m : prog value) {struct m}
  : Prop :=
  match m with
  | Vis c k =>
      if P c
      then match n with
           | O => False
           | S n' => forall r, at_most P n' (k r)
           end
      else forall r, at_most P n (k r)
  | _ => True
  end.

(** The calls of an operation on one entity: those of the lease and the
    delegate call. *)
Definition is_lease_call (c : call) : bool :=
  match c with
  | NewQueryRunnerProvider _ _ | Provide _ | Release _ _ => true
  | PersisterPersist _ _ _ _ | PersisterRemove _ _ _ _ | RunnerQuery _ _ => true
  | _ => false
  end.

Definition is_new_provider (c : call) : bool :=
  match c with NewQueryRunnerProvider _ _ => true | _ => false end.

Definition any_call (c : call) : bool := true.

(** [persist], [remove] and [query] on one entity. *)
Inductive single_operation (this : Repository) : prog value -> Prop :=
| single_persist entity : single_operation this (persist_entity this entity)
| single_remove entity : single_operation this (remove_entity this entity)
| single_query sql : single_operation this (query this sql).

(** ** More sample collaborators *)

Definition commit_fails (c : call) : option value :=
  match c with
  | CommitTransaction _ => Some (VString "commit failed")
  | _ => None
  end.

Definition release_fails (c : call) : option value :=
  match c with
  | Release _ _ => Some (VString "release failed")
  | _ => None
  end.

Definition provide_fails (c : call) : option value :=
  match c with
  | Provide _ => Some (VString "pool exhausted")
  | _ => None
  end.

(** A repository constructed with provider 3, as [transaction] makes them. *)
Definition provided : Repository :=
  example_repository example_metadata_xy (Some 3).

(** [async repo => 1] *)
Definition work_returns (repo : Repository) : prog value := Ret (VNumber 1).

(** ** Events of a pool *)

(** The sibling an event belongs to. *)
Definition sibling_of (ev : event) : nat :=
  match ev with
  | Called i _ _ => i
  | SettledAt i _ => i
  end.

(** The aggregate of a one-element array from the outcome of its element. *)
Definition singleton_aggregate (res : outcome value) : outcome (list value) :=
  match res with
  | Ok v => Ok [v]
  | Thrown e => Thrown e
  end.

Definition is_running (t : task) : bool :=
  match t with Running _ => true | Settled _ => false end.
(** * Properties *)

(** ** [hasId] *)

Lemma is_empty_string_true v :
  is_empty_string v = true <-> v = VString EmptyString.
Proof.
  destruct v as [| | | |s|]; simpl; try (split; discriminate).
  destruct s; split; congruence.
Qed.

Lemma real_value_spec v :
  negb (is_null v) && negb (is_undefined v) && negb (is_empty_string v) = true
  <-> real_value v.
Proof.
  unfold real_value. rewrite !andb_true_iff, !negb_true_iff. split.
  - intros [[Hn Hu] He]. repeat split; intros ->; simpl in *; try discriminate.
  - intros [Hn [Hu He]]. repeat split.
    + destruct v; simpl; congruence.
    + destruct v; simpl; congruence.
    + destruct (is_empty_string v) eqn:E; auto.
      apply is_empty_string_true in E. contradiction.
Qed.

Lemma id_presentb_spec e c : id_presentb e c = true <-> id_present e c.
Proof.
  unfold id_presentb, id_present, own_property, property, Obj.get.
  destruct e as [| |o]; try (split; [discriminate | tauto]).
  destruct (Obj.lookup o (Column.propertyName c)) as [v|].
  - rewrite real_value_spec. split; [intros H; split; eauto | tauto].
  - split; [discriminate | intros [[v Hv] _]; discriminate].
Qed.

(** One step of the [every] callback: it leaves the entity as it was; it
    throws on an entity that hides the inherited [hasOwnProperty] and
    answers [id_presentb] on any other. *)
Lemma hasId_column e c :
  (entity_truthy &&>
   entity_hasOwnProperty (Column.propertyName c) &&>
   entity_differs (Column.propertyName c) is_null &&>
   entity_differs (Column.propertyName c) is_undefined &&>
   entity_differs (Column.propertyName c) is_empty_string)%st e
  = (if shadows_hasOwnProperty e then Thrown TypeError
     else Ok (id_presentb e c), e).
Proof.
  destruct e as [| |o]; try reflexivity.
  cbv beta iota delta [and_then bind entity_truthy entity_hasOwnProperty
    entity_differs entity_get ret id_presentb Obj.hasOwnProperty Obj.get
    shadows_hasOwnProperty].
  destruct (Obj.lookup o "hasOwnProperty") as [m|] eqn:Em; [reflexivity|].
  destruct (Obj.lookup o (Column.propertyName c)) as [v|] eqn:E;
    [|reflexivity].
  destruct v as [| | | |s|]; repeat (cbn; rewrite ?E); reflexivity.
Qed.

Lemma hasId_run metadata e :
  hasId metadata e
  = (match primaryColumns metadata with
     | [] => Ok true
     | _ :: _ =>
         if shadows_hasOwnProperty e then Thrown TypeError
         else Ok (forallb (id_presentb e) (primaryColumns metadata))
     end, e).
Proof.
  unfold hasId. destruct (shadows_hasOwnProperty e) eqn:Es.
  - destruct (primaryColumns metadata) as [|c cs]; [reflexivity|].
    cbn [every]. unfold bind at 1. rewrite hasId_column, Es. reflexivity.
  - transitivity
      (Ok (forallb (id_presentb e) (primaryColumns metadata)), e);
      [|destruct (primaryColumns metadata); reflexivity].
    induction (primaryColumns metadata) as [|c cs IH].
    + reflexivity.
    + cbn [every forallb]. unfold bind at 1.
      rewrite hasId_column, Es. destruct (id_presentb e c); simpl.
      * exact IH.
      * reflexivity.
Qed.

(** On an entity that leaves the inherited [hasOwnProperty] alone. *)
Lemma hasId_run_plain metadata e :
  shadows_hasOwnProperty e = false ->
  hasId metadata e
  = (Ok (forallb (id_presentb e) (primaryColumns metadata)), e).
Proof.
  intro Es. rewrite hasId_run, Es.
  destruct (primaryColumns metadata); reflexivity.
Qed.

(** C6, as the claim has it, fails on an entity with a property of its own
    named [hasOwnProperty]: the key [x] of this entity is an own property
    holding [1], and yet [hasId] does not return true, nor any answer: the
    call of [entity.hasOwnProperty] throws. *)
Lemma hasId_shadowed_method_throws :
  let entity := EObject [("x", VNumber 1); ("hasOwnProperty", VNumber 5)] in
  Forall (id_present entity) (primaryColumns example_metadata_xy) /\
  hasId example_metadata_xy entity = (Thrown TypeError, entity) /\
  ~ (exists b : bool,
        hasId example_metadata_xy entity = (Ok b, entity) /\
        (b = true
         <-> Forall (id_present entity) (primaryColumns example_metadata_xy))).
Proof.
  intro entity. split; [|split].
  - constructor; [|constructor].
    split; [exists (VNumber 1); reflexivity|].
    repeat split; discriminate.
  - reflexivity.
  - intros [b [Hrun _]]. discriminate Hrun.
Qed.

(** C6, amended.  On an entity that has no property of its own named
    [hasOwnProperty], [hasId] never throws and hands the entity back
    untouched; its answer is [true] exactly when every primary-key column's
    property is an own property of the entity holding a value other than
    [null], [undefined] and the empty string, hence [false] as soon as one
    primary-key property is [null], [undefined] or the empty string. *)
Theorem hasId_spec (metadata : EntityMetadata) (entity : EntityRef) :
  shadows_hasOwnProperty entity = false ->
  exists b : bool,
    hasId metadata entity = (Ok b, entity) /\
    (b = true <-> Forall (id_present entity) (primaryColumns metadata)) /\
    ((exists c, In c (primaryColumns metadata) /\
                let v := property entity (Column.propertyName c) in
                v = VNull \/ v = VUndefined \/ v = VString EmptyString) ->
     b = false).
Proof.
  intro Hplain.
  exists (forallb (id_presentb entity) (primaryColumns metadata)).
  split; [apply hasId_run_plain; exact Hplain|].
  assert (Hiff : forallb (id_presentb entity) (primaryColumns metadata) = true
                 <-> Forall (id_present entity) (primaryColumns metadata)).
  { rewrite forallb_forall, Forall_forall.
    split; intros H c Hc; apply id_presentb_spec; auto. }
  split; [exact Hiff|].
  intros [c [Hc Hv]]. apply not_true_is_false. intro Ht.
  apply Hiff in Ht. rewrite Forall_forall in Ht.
  destruct (Ht c Hc) as [_ [Hn [Hu He]]]. simpl in Hv. tauto.
Qed.

(** *** Properties of plain objects *)

Lemma lookup_replace o k v k' :
  Obj.lookup o k <> None ->
  Obj.lookup (Obj.replace o k v) k' =
  if String.eqb k k' then Some v else Obj.lookup o k'.
Proof.
  induction o as [|[k0 v0] o IH]; simpl.
  - congruence.
  - destruct (String.eqb k0 k) eqn:E0; simpl; intro H.
    + apply String.eqb_eq in E0. subst k0.
      destruct (String.eqb k k'); reflexivity.
    + rewrite (IH H). destruct (String.eqb k0 k') eqn:E1; [|reflexivity].
      apply String.eqb_eq in E1. subst k'.
      rewrite String.eqb_sym, E0. reflexivity.
Qed.

Lemma lookup_app_fresh o k v k' :
  Obj.lookup o k = None ->
  Obj.lookup (o ++ [(k, v)])%list k' =
  if String.eqb k k' then Some v else Obj.lookup o k'.
Proof.
  induction o as [|[k0 v0] o IH]; simpl.
  - intros _. destruct (String.eqb k k'); reflexivity.
  - destruct (String.eqb k0 k) eqn:E0; [discriminate|]. intro H.
    rewrite (IH H). destruct (String.eqb k0 k') eqn:E1; [|reflexivity].
    apply String.eqb_eq in E1. subst k'.
    rewrite String.eqb_sym, E0. reflexivity.
Qed.

Lemma lookup_insert_index n o k v k' :
  Obj.lookup o k = None ->
  Obj.lookup (Obj.insert_index n k v o) k' =
  if String.eqb k k' then Some v else Obj.lookup o k'.
Proof.
  induction o as [|[k0 v0] o IH]; cbn [Obj.insert_index].
  - intros _. simpl. destruct (String.eqb k k'); reflexivity.
  - intro H.
    assert (E0 : String.eqb k0 k = false).
    { simpl in H. destruct (String.eqb k0 k); [discriminate|reflexivity]. }
    assert (H' : Obj.lookup o k = None).
    { simpl in H. rewrite E0 in H. exact H. }
    destruct (Obj.array_index k0) as [n'|];
      [destruct (n' <? n)%N|]; try reflexivity.
    cbn [Obj.lookup]. rewrite (IH H').
    destruct (String.eqb k0 k') eqn:E1; [|reflexivity].
    apply String.eqb_eq in E1. subst k'.
    rewrite String.eqb_sym, E0. reflexivity.
Qed.

Lemma lookup_set o k v k' :
  Obj.lookup (Obj.set o k v) k' =
  if String.eqb k k' then Some v else Obj.lookup o k'.
Proof.
  unfold Obj.set, Obj.hasOwnProperty.
  destruct (Obj.lookup o k) as [v0|] eqn:Hk.
  - apply lookup_replace. rewrite Hk. discriminate.
  - destruct (Obj.array_index k) as [n|].
    + apply lookup_insert_index. exact Hk.
    + apply lookup_app_fresh. exact Hk.
Qed.

(** Array indices are enumerated first, in ascending order, whenever they
    were assigned; the other keys follow in the order of their first
    assignment. *)
Example set_orders_array_indices :
  Obj.set (Obj.set (Obj.set (Obj.set [] "b" (VNumber 1)) "10" (VNumber 2))
                   "2" (VNumber 3)) "b" (VNumber 4)
  = [("2", VNumber 3); ("10", VNumber 2); ("b", VNumber 4)].
Proof. reflexivity. Qed.

Example array_index_canonical :
  Obj.array_index "0" = Some 0%N /\
  Obj.array_index "4294967294" = Some 4294967294%N /\
  Obj.array_index "4294967295" = None /\
  Obj.array_index "07" = None /\
  Obj.array_index "-1" = None /\
  Obj.array_index "x" = None.
Proof. repeat split. Qed.

Example string_property_own :
  string_property "abc" "length" = VNumber 3 /\
  string_property "abc" "1" = VString "b" /\
  string_property "abc" "3" = VUndefined /\
  string_property "abc" "x" = VUndefined.
Proof. repeat split. Qed.

Lemma set_empty k v : Obj.set [] k v = [(k, v)].
Proof.
  unfold Obj.set. cbn. destruct (Obj.array_index k); reflexivity.
Qed.

Lemma transform_lookup metadata object entity k :
  Obj.lookup (transform entity object metadata) k
  = overlay metadata object k (Obj.lookup entity k).
Proof.
  unfold transform, overlay, schema_knows.
  revert entity. induction (columns metadata) as [|c cs IH]; intro entity.
  - reflexivity.
  - cbn [fold_left existsb]. rewrite IH. clear IH.
    unfold Obj.hasOwnProperty, Obj.get.
    destruct (String.eqb (Column.propertyName c) k) eqn:E.
    + apply String.eqb_eq in E. rewrite E. cbn [orb].
      destruct (Obj.lookup object k) as [v|] eqn:L.
      * rewrite lookup_set, String.eqb_refl.
        destruct (existsb _ cs); reflexivity.
      * destruct (existsb _ cs); reflexivity.
    + cbn [orb].
      destruct (Obj.lookup object (Column.propertyName c)) as [v|].
      * rewrite lookup_set, E. reflexivity.
      * reflexivity.
Qed.

Lemma merge_lookup metadata objects k :
  Obj.lookup (merge metadata objects) k
  = fold_left (fun acc object => overlay metadata object k acc) objects None.
Proof.
  unfold merge, metadata_create.
  change (@None value) with (Obj.lookup [] k).
  generalize (@nil (string * value)) as entity.
  induction objects as [|o os IH]; intro entity.
  - reflexivity.
  - cbn [fold_left]. rewrite IH, transform_lookup. reflexivity.
Qed.

Lemma overlay_unknown metadata objects k acc :
  schema_knows metadata k = false ->
  fold_left (fun a object => overlay metadata object k a) objects acc = acc.
Proof.
  intro H. revert acc. induction objects as [|o os IH]; intro acc.
  - reflexivity.
  - cbn [fold_left]. rewrite IH. unfold overlay. rewrite H. reflexivity.
Qed.

Lemma overlay_silent metadata objects k acc :
  Forall (fun o => Obj.lookup o k = None) objects ->
  fold_left (fun a object => overlay metadata object k a) objects acc = acc.
Proof.
  intro H. revert acc. induction H as [|o os Ho _ IH]; intro acc.
  - reflexivity.
  - cbn [fold_left]. rewrite IH. unfold overlay. rewrite Ho.
    destruct (schema_knows metadata k); reflexivity.
Qed.

Example hasId_present :
  hasId example_metadata_xy (EObject [("x", VNumber 1)])
  = (Ok true, EObject [("x", VNumber 1)]).
Proof. reflexivity. Qed.

Example hasId_missing :
  fst (hasId example_metadata_xy (EObject [("y", VNumber 2)])) = Ok false.
Proof. reflexivity. Qed.

Example hasId_of_null : fst (hasId example_metadata_xy ENull) = Ok false.
Proof. reflexivity. Qed.

(** An entity whose key is the empty string has no id. *)
Lemma hasId_spec_witness :
  let entity := EObject [("x", VString EmptyString); ("y", VNumber 2)] in
  hasId example_metadata_xy entity = (Ok false, entity).
Proof.
  intro entity.
  destruct (hasId_spec example_metadata_xy entity eq_refl)
    as [b [Hrun [_ Hfalse]]].
  rewrite Hrun. rewrite Hfalse; [reflexivity|].
  exists (column "x" "x"). split; [left; reflexivity|].
  right. right. reflexivity.
Defined.

(** ** [create] and [merge] *)

(** C8. [create] on an array is [create] on each element, in order; [create]
    on a plain object yields an entity that owns, of the object's
    properties, exactly those the schema knows, so a property the metadata
    does not have is not set on the result. *)
Theorem create_elementwise_schema_only (metadata : EntityMetadata) :
  (forall objects : list PlainArg,
      create metadata (PlainObjects objects)
      = Entities (map (create metadata) objects)) /\
  (forall a b : ObjectLiteral,
      create metadata (PlainObjects [PlainObject a; PlainObject b])
      = Entities [create metadata (PlainObject a);
                  create metadata (PlainObject b)]) /\
  (forall x : ObjectLiteral,
      exists e, create metadata (PlainObject x) = Entity e /\
                forall k, Obj.lookup e k =
                          if schema_knows metadata k
                          then Obj.lookup x k else None).
Proof.
  split; [reflexivity|]. split; [reflexivity|].
  intro x. eexists. split; [reflexivity|].
  intro k. rewrite transform_lookup. unfold overlay, metadata_create.
  cbn [Obj.lookup].
  destruct (schema_knows metadata k); [|reflexivity].
  destruct (Obj.lookup x k); reflexivity.
Qed.

(** C9. [merge] applies its arguments in order to one new entity: a property
    the schema knows ends up with the value of the last argument that owns
    it, a property no argument owns is not set, and a property the schema
    does not know is not set whatever the arguments hold. *)
Theorem merge_later_wins (metadata : EntityMetadata)
    (objects : list ObjectLiteral) (k : string) :
  (forall before o after v,
      objects = (before ++ o :: after)%list ->
      schema_knows metadata k = true ->
      Obj.lookup o k = Some v ->
      Forall (fun o' => Obj.lookup o' k = None) after ->
      Obj.lookup (merge metadata objects) k = Some v) /\
  (Forall (fun o => Obj.lookup o k = None) objects ->
   Obj.lookup (merge metadata objects) k = None) /\
  (schema_knows metadata k = false ->
   Obj.lookup (merge metadata objects) k = None).
Proof.
  rewrite merge_lookup. repeat split.
  - intros before o after v -> Hk Ho Hafter.
    rewrite fold_left_app. cbn [fold_left].
    rewrite overlay_silent by assumption.
    unfold overlay. rewrite Hk, Ho. reflexivity.
  - intro H. apply overlay_silent. assumption.
  - intro H. apply overlay_unknown. assumption.
Qed.

(** The example of the description: [merge({x:1,y:2,z:3}, {x:5})] over a
    schema that knows [x] and [y]. *)
Lemma merge_later_wins_witness :
  let m := example_metadata_xy in
  let a := [("x", VNumber 1); ("y", VNumber 2); ("z", VNumber 3)] in
  let b := [("x", VNumber 5)] in
  Obj.lookup (merge m [a; b]) "x" = Some (VNumber 5) /\
  Obj.lookup (merge m [a; b]) "y" = Some (VNumber 2) /\
  Obj.lookup (merge m [a; b]) "z" = None.
Proof.
  intros m a b. split; [|split].
  - apply (proj1 (merge_later_wins m [a; b] "x") [a] b [] (VNumber 5));
      [reflexivity | reflexivity | reflexivity | constructor].
  - apply (proj1 (merge_later_wins m [a; b] "y") [] a [b] (VNumber 2));
      [reflexivity | reflexivity | reflexivity |].
    repeat constructor.
  - apply (proj2 (proj2 (merge_later_wins m [a; b] "z"))). reflexivity.
Defined.

(** ** Find-filter resolution *)

Lemma prefix_dot c s :
  String.prefix "." (String c s) = Ascii.eqb "." c.
Proof.
  change (String.prefix "." (String c s))
    with (match ascii_dec "." c with
          | left _ => String.prefix EmptyString s
          | right _ => false
          end).
  destruct (ascii_dec "." c) as [E|E].
  - subst c. rewrite Ascii.eqb_refl. destruct s; reflexivity.
  - symmetry. apply Ascii.eqb_neq. assumption.
Qed.

Lemma indexOf_from_dot i s :
  (0 <= i)%Z ->
  if has_separator s
  then (i <= indexOf_from i s ".")%Z
  else indexOf_from i s "." = (-1)%Z.
Proof.
  revert i. unfold has_separator.
  induction s as [|c s IH]; intros i Hi.
  - reflexivity.
  - cbn [list_ascii_of_string existsb indexOf_from]. rewrite prefix_dot.
    destruct (Ascii.eqb "." c); cbn [orb].
    + lia.
    + specialize (IH (i + 1)%Z ltac:(lia)).
      destruct (existsb (Ascii.eqb ".") (list_ascii_of_string s)); lia.
Qed.

(** [key.indexOf(".") === -1] says that [key] holds no separator. *)
Lemma indexOf_dot key :
  (indexOf key "." =? -1)%Z = negb (has_separator key).
Proof.
  unfold indexOf. pose proof (indexOf_from_dot 0 key ltac:(lia)) as H.
  destruct (has_separator key); cbn [negb].
  - apply Z.eqb_neq. lia.
  - apply Z.eqb_eq. assumption.
Qed.

Lemma fold_andWhere (f : string -> string) keys qb :
  fold_left (fun qb key => QB.andWhere qb (f key)) keys qb
  = {| qb_connection := qb_connection qb;
       qb_calls :=
         (qb_calls qb ++ map (fun key => QbAndWhere (f key)) keys)%list |}.
Proof.
  revert qb. induction keys as [|key keys IH]; intro qb.
  - cbn. rewrite app_nil_r. destruct qb; reflexivity.
  - cbn [fold_left map]. rewrite IH. cbn.
    rewrite <- app_assoc. reflexivity.
Qed.

Lemma createFindQueryBuilder_calls this a options :
  createFindQueryBuilder this a options
  = {| qb_connection := connection this;
       qb_calls := resolution_calls this a options |}.
Proof.
  unfold createFindQueryBuilder, resolution_calls, resolved_alias.
  assert (Hname : forall aliasName qb keys,
    fold_left
      (fun qb key =>
         let name := if (indexOf key "." =? -1)%Z
                     then aliasName ++ "." ++ key else key in
         QB.andWhere qb (name ++ "=:" ++ key)) keys qb
    = fold_left
        (fun qb key => QB.andWhere qb (equality_predicate aliasName key))
        keys qb).
  { intros aliasName qb keys. revert qb.
    induction keys as [|key keys IH]; intro qb; [reflexivity|].
    cbn [fold_left]. rewrite IH. unfold equality_predicate, qualified.
    rewrite indexOf_dot. destruct (has_separator key); reflexivity. }
  destruct a as [[conditions|o]|]; cbn [isFindOptions asFindOptions
    asConditions given_options].
  - rewrite Hname, fold_andWhere.
    destruct options as [o|]; cbn; rewrite <- ?app_assoc; reflexivity.
  - reflexivity.
  - destruct options as [o|]; reflexivity.
Qed.

Lemma flat_map_andWhere {B} (g : QueryBuilderCall -> list B) f
    (keys : list string) :
  flat_map g (map (fun key => QbAndWhere (f key)) keys)
  = flat_map (fun key => g (QbAndWhere (f key))) keys.
Proof.
  induction keys as [|key keys IH]; cbn; [reflexivity|].
  rewrite IH. reflexivity.
Qed.

Lemma flat_map_nil {A B} (l : list A) :
  flat_map (fun _ : A => @nil B) l = [].
Proof. induction l; cbn; auto. Qed.

Lemma flat_map_singleton {A B} (f : A -> B) (l : list A) :
  flat_map (fun x => [f x]) l = map f l.
Proof.
  induction l as [|x l IH]; cbn; [reflexivity|]. rewrite IH. reflexivity.
Qed.

(** C3. The alias of the query is the alias of the FindOptions argument when
    there is one and the table name otherwise; a conditions object adds one
    predicate [name=:key] per key, in key order, where [name] is the key
    itself when it holds a ["."] and [alias.key] otherwise, and is bound
    whole as the parameters; without arguments the builder only selects
    from the table under the table name. *)
Theorem createFindQueryBuilder_resolution (this : Repository) :
  (forall a options,
      QB.aliases (createFindQueryBuilder this a options)
      = [resolved_alias this a options]) /\
  (forall conditions options,
      let qb := createFindQueryBuilder this (Some (Conditions conditions))
                                       options in
      let aliasName := match options with
                       | Some o => alias o
                       | None => Table.name (table (metadata this))
                       end in
      QB.wheres qb
      = map (fun key =>
               (if has_separator key then key else aliasName ++ "." ++ key)
               ++ "=:" ++ key)
            (Obj.keys conditions) /\
      QB.parameters qb = [conditions]) /\
  (forall o options,
      QB.aliases (createFindQueryBuilder this (Some (Options o)) options)
      = [alias o]) /\
  (let tableName := Table.name (table (metadata this)) in
   createFindQueryBuilder this None None
   = {| qb_connection := connection this;
        qb_calls := [QbSelect tableName;
                     QbFrom (target (metadata this)) tableName] |}).
Proof.
  split; [|split; [intros conditions options qb aliasName; split
                  |split; [|reflexivity]]].
  - intros a options. rewrite createFindQueryBuilder_calls.
    unfold QB.aliases, resolution_calls. cbn [qb_calls flat_map app].
    rewrite flat_map_app.
    destruct (given_options a options); destruct (asConditions a);
      cbn [flat_map app]; rewrite ?flat_map_app, ?flat_map_andWhere,
        ?flat_map_nil; reflexivity.
  - subst qb aliasName. rewrite createFindQueryBuilder_calls.
    unfold QB.wheres, resolution_calls, resolved_alias.
    cbn [qb_calls flat_map app given_options asConditions].
    rewrite flat_map_app.
    destruct options as [o|]; cbn [flat_map app];
      rewrite ?flat_map_app, flat_map_andWhere, flat_map_singleton;
      cbn [flat_map app]; rewrite app_nil_r; reflexivity.
  - subst qb aliasName. rewrite createFindQueryBuilder_calls.
    unfold QB.parameters, resolution_calls, resolved_alias.
    cbn [qb_calls flat_map app given_options asConditions].
    rewrite flat_map_app.
    destruct options as [o|]; cbn [flat_map app];
      rewrite ?flat_map_app, flat_map_andWhere, flat_map_nil; reflexivity.
  - intros o options. reflexivity.
Qed.

(** The example of the description:
    [find({name:"a"}, {alias:"u", maxResults:10})]. *)
Example find_conditions_and_options :
  let options := {| alias := "u"; settings := [("maxResults", VNumber 10)] |} in
  let conditions := [("name", VString "a")] in
  qb_calls (createFindQueryBuilder standalone
              (Some (Conditions conditions)) (Some options))
  = [QbSelect "u"; QbFrom "Point" "u"; QbApplyOptions options;
     QbAndWhere "u.name=:name"; QbAddParameters conditions].
Proof. reflexivity. Qed.

Example find_qualified_key :
  QB.wheres
    (createFindQueryBuilder standalone
       (Some (Conditions [("p.x", VNumber 1); ("y", VNumber 2)])) None)
  = ["p.x=:p.x"; "point.y=:y"].
Proof. reflexivity. Qed.

(** C10. When the first argument of [find], [findAndCount] or [findOne] is a
    FindOptions object, the second argument plays no part: the builder has
    the first argument's options applied and nothing else, no predicate and
    no parameters, and the three methods issue the query they issue without
    a second argument. *)
Theorem second_options_ignored (this : Repository)
    (optionsA : FindOptions) (optionsB : option FindOptions) :
  let first := Some (Options optionsA) in
  createFindQueryBuilder this first optionsB
  = createFindQueryBuilder this first None /\
  QB.appliedOptions (createFindQueryBuilder this first optionsB) = [optionsA] /\
  QB.wheres (createFindQueryBuilder this first optionsB) = [] /\
  QB.parameters (createFindQueryBuilder this first optionsB) = [] /\
  find this first optionsB = find this first None /\
  findAndCount this first optionsB = findAndCount this first None /\
  findOne this first optionsB = findOne this first None.
Proof. repeat split. Qed.

(** ** [findOneById] *)



(** No primary key: the id is bound to the first parent-id column. *)
Lemma findOneById_parent_key m c cs id :
  hasMultiplePrimaryKeys m = false ->
  primaryColumns m = [] ->
  parentIdColumns m = c :: cs ->
  findOneById_conditions m id = Ok [(Column.name c, id)].
Proof.
  intros Hm Hp Hc. unfold findOneById_conditions, findOneById_fill.
  rewrite Hm, Hp, Hc. cbn -[Obj.set].
  rewrite set_empty. reflexivity.
Qed.

(** A composite key and an id that is an object: one condition per
    primary-key column, read from the id under the column's name, then one
    per parent-id column, read under the name of its property. *)
Lemma findOneById_composite m o :
  hasMultiplePrimaryKeys m = true ->
  findOneById_conditions m (VObject o)
  = Ok (fold_left
          (fun conditions c =>
             Obj.set conditions (Column.name c)
                     (Obj.get o (Column.propertyName c)))
          (parentIdColumns m)
          (fold_left
             (fun conditions c =>
                Obj.set conditions (Column.name c)
                        (Obj.get o (Column.name c)))
             (primaryColumns m) [])).
Proof.
  intro Hm. unfold findOneById_conditions, findOneById_fill. rewrite Hm.
  assert (Hloop : forall (key : Column.t -> string) cs conditions,
    forEach (fun c => bind (any_get (VObject o) (key c))
                           (fun v => assign (Column.name c) v))
            cs conditions
    = (Ok tt, fold_left (fun conditions c =>
                           Obj.set conditions (Column.name c)
                                   (Obj.get o (key c)))
                        cs conditions)).
  { intros key cs. induction cs as [|c cs IH]; intro conditions.
    - reflexivity.
    - cbn [forEach fold_left]. unfold bind at 1. cbn. apply IH. }
  unfold bind at 1. rewrite Hloop. rewrite Hloop. reflexivity.
Qed.

Example findOneById_5 :
  findOneById (example_repository example_metadata_xy None) (VNumber 5) None
  = perform (GetSingleResult
      {| qb_connection := example_connection;
         qb_calls := [QbSelect "point"; QbFrom "Point" "point";
                      QbAndWhere "point.x=:x";
                      QbAddParameters [("x", VNumber 5)]] |}).
Proof. reflexivity. Qed.

Example findOneById_child :
  findOneById_conditions example_metadata_child (VNumber 9)
  = Ok [("parent_id", VNumber 9)].
Proof. reflexivity. Qed.

(** No id at all on a composite key: reading the first column throws. *)
Example findOneById_composite_undefined :
  findOneById example_repository_composite VUndefined None = Throw TypeError.
Proof. reflexivity. Qed.

(** C4 fails on a composite key whose columns are not named like their
    properties: the values of the primary-key columns are read from the id
    under the column names, so an id that maps the primary-key properties
    binds [undefined] to both columns, while the parent-id column next to
    them is bound to the value of its property. *)
Theorem findOneById_composite_reads_column_names :
  let id := VObject [("firstId", VNumber 1); ("secondId", VNumber 2);
                     ("parentId", VNumber 3)] in
  findOneById_conditions example_metadata_composite id
  = Ok [("first_id", VUndefined); ("second_id", VUndefined);
        ("parent_id", VNumber 3)] /\
  findOneById_conditions example_metadata_composite id
  <> Ok [("first_id", VNumber 1); ("second_id", VNumber 2);
         ("parent_id", VNumber 3)].
Proof. split; [reflexivity | discriminate]. Qed.

(** ** Runs of the leasing operations *)

Section Runs.

Context {W : Type}.
Variable h : handler W.

Lemma run_pbind {A B} (m : prog A) (f : A -> prog B) (w : W) :
  run h (pbind m f) w =
  match run h m w with
  | (Ok a, w1, calls1) =>
      let '(res, w2, calls2) := run h (f a) w1 in
      (res, w2, (calls1 ++ calls2)%list)
  | (Thrown e, w1, calls1) => (Thrown e, w1, calls1)
  end.
Proof.
  revert w. induction m as [a|e|c k IH]; intro w; cbn.
  - destruct (run h (f a) w) as [[res w2] calls2]. reflexivity.
  - reflexivity.
  - destruct (h c w) as [r w1]. rewrite IH.
    destruct (run h (k r) w1) as [[[a|e] w2] calls1].
    + destruct (run h (f a) w2) as [[res w3] calls2]. reflexivity.
    + reflexivity.
Qed.

Lemma run_try_catch {A} (m : prog A) (handle : value -> prog A) (w : W) :
  run h (try_catch m handle) w =
  match run h m w with
  | (Ok a, w1, calls1) => (Ok a, w1, calls1)
  | (Thrown e, w1, calls1) =>
      let '(res, w2, calls2) := run h (handle e) w1 in
      (res, w2, (calls1 ++ calls2)%list)
  end.
Proof.
  revert w. induction m as [a|e|c k IH]; intro w; cbn.
  - reflexivity.
  - destruct (run h (handle e) w) as [[res w2] calls2]. reflexivity.
  - destruct (h c w) as [r w1]. rewrite IH.
    destruct (run h (k r) w1) as [[[a|e] w2] calls1].
    + reflexivity.
    + destruct (run h (handle e) w2) as [[res w3] calls2]. reflexivity.
Qed.

Lemma run_try_finally {A} (m : prog A) (cleanup : prog unit) (w : W) :
  run h (try_finally m cleanup) w =
  let '(res, w1, calls1) := run h m w in
  let '(done, w2, calls2) := run h cleanup w1 in
  (after_cleanup res done, w2, (calls1 ++ calls2)%list).
Proof.
  revert w. induction m as [a|e|c k IH]; intro w; cbn.
  - rewrite run_pbind.
    destruct (run h cleanup w) as [[[u|e] w2] calls2]; cbn;
      rewrite ?app_nil_r; reflexivity.
  - rewrite run_pbind.
    destruct (run h cleanup w) as [[[u|e'] w2] calls2]; cbn;
      rewrite ?app_nil_r; reflexivity.
  - destruct (h c w) as [r w1]. rewrite IH.
    destruct (run h (k r) w1) as [[res w2] calls1].
    destruct (run h cleanup w2) as [[done w3] calls2]. reflexivity.
Qed.

Lemma run_acquire {A} this flag w p r w1 pre (k : QueryRunnerProvider ->
    QueryRunner -> prog A) :
  leased h this flag w p r w1 pre ->
  run h (pbind (provider_or_new this flag) (fun p =>
         pbind (perform (Provide p)) (fun r => k p r))) w
  = let '(res, w2, calls) := run h (k p r) w1 in
    (res, w2, (pre ++ calls)%list).
Proof.
  intros [w0 [Hp Hr]]. unfold provider_or_new.
  destruct (queryRunnerProvider this) as [p0|].
  - destruct Hp as [-> [-> ->]]. cbn. rewrite Hr. cbn.
    destruct (run h (k p0 r) w1) as [[res w2] calls]. reflexivity.
  - destruct Hp as [Hn ->]. cbn. rewrite Hn. cbn. rewrite Hr. cbn.
    destruct (run h (k p r) w1) as [[res w2] calls]. reflexivity.
Qed.

End Runs.

Section Leases.

Context {W : Type}.
Variable h : handler W.

(** [persist], [remove] and [query] on one entity: lease, delegate,
    release. *)
Ltac run_calls :=
  cbn [run perform pbind];
  repeat match goal with
         | |- context [h ?c ?w] => destruct (h c w) as [[?|?] ?]; cbn
         end;
  reflexivity.

Lemma run_persist_entity {this} entity {w p r w1 pre} :
  leased h this None w p r w1 pre ->
  let delegate :=
    PersisterPersist (connection this) (metadata this) r entity in
  run h (persist_entity this entity) w
  = (after_cleanup (fst (h delegate w1))
                   (fst (h (Release p r) (snd (h delegate w1)))),
     snd (h (Release p r) (snd (h delegate w1))),
     (pre ++ [delegate; Release p r])%list).
Proof.
  intros Hlease delegate. subst delegate. unfold persist_entity.
  erewrite run_acquire by exact Hlease.
  rewrite run_try_finally. run_calls.
Qed.

Lemma run_remove_entity {this} entity {w p r w1 pre} :
  leased h this (Some true) w p r w1 pre ->
  let delegate :=
    PersisterRemove (connection this) (metadata this) r entity in
  run h (remove_entity this entity) w
  = (after_cleanup (fst (h delegate w1))
                   (fst (h (Release p r) (snd (h delegate w1)))),
     snd (h (Release p r) (snd (h delegate w1))),
     (pre ++ [delegate; Release p r])%list).
Proof.
  intros Hlease delegate. subst delegate. unfold remove_entity.
  erewrite run_acquire by exact Hlease.
  rewrite run_try_finally. run_calls.
Qed.

Lemma run_query {this} sql {w p r w1 pre} :
  leased h this None w p r w1 pre ->
  let delegate := RunnerQuery r sql in
  run h (query this sql) w
  = (after_cleanup (fst (h delegate w1))
                   (fst (h (Release p r) (snd (h delegate w1)))),
     snd (h (Release p r) (snd (h delegate w1))),
     (pre ++ [delegate; Release p r])%list).
Proof.
  intros Hlease delegate. subst delegate. unfold query.
  erewrite run_acquire by exact Hlease.
  rewrite run_try_finally. run_calls.
Qed.

(** The [finally] block. *)
Lemma run_transaction_cleanup this p r w :
  run h (transaction_cleanup this p r) w
  = match h (Release p r) w with
    | (Thrown e, w3) => (Thrown e, w3, [Release p r])
    | (Ok _, w3) =>
        match queryRunnerProvider this with
        | Some _ => (Ok tt, w3, [Release p r])
        | None =>
            (fst (h (ReleaseReused p) w3), snd (h (ReleaseReused p) w3),
             [Release p r; ReleaseReused p])
        end
    end.
Proof.
  unfold transaction_cleanup. cbn [run perform pbind].
  destruct (h (Release p r) w) as [[u|e] w3]; cbn; [|reflexivity].
  destruct (queryRunnerProvider this); cbn; [reflexivity|].
  destruct (h (ReleaseReused p) w3) as [[u'|e'] w4]; reflexivity.
Qed.

Lemma run_transaction {this} work {w p r w1 pre} :
  leased h this (Some true) w p r w1 pre ->
  run h (transaction this work) w
  = let '(res, w2, body) :=
      run h (transaction_body r work (scoped this p)) w1 in
    let '(done, w3, cleanup) := run h (transaction_cleanup this p r) w2 in
    (after_cleanup res done, w3, (pre ++ body ++ cleanup)%list).
Proof.
  intro Hlease. unfold transaction.
  erewrite run_acquire by exact Hlease.
  rewrite run_try_finally.
  fold (scoped this p).
  destruct (run h (transaction_body r work (scoped this p)) w1)
    as [[res w2] body].
  destruct (run h (transaction_cleanup this p r) w2) as [[done w3] cleanup].
  reflexivity.
Qed.

(** The [try] block when the transaction begins and the work returns. *)
Lemma run_body_returns r work repo {w1 wb v ww calls} :
  h (BeginTransaction r) w1 = (Ok tt, wb) ->
  run h (work repo) wb = (Ok v, ww, calls) ->
  run h (transaction_body r work repo) w1
  = match h (CommitTransaction r) ww with
    | (Ok _, wc) =>
        (Ok v, wc,
         (BeginTransaction r :: calls ++ [CommitTransaction r])%list)
    | (Thrown e, wc) =>
        (after_cleanup (Thrown e) (fst (h (RollbackTransaction r) wc)),
         snd (h (RollbackTransaction r) wc),
         (BeginTransaction r :: calls
            ++ [CommitTransaction r; RollbackTransaction r])%list)
    end.
Proof.
  intros Hb Hw. unfold transaction_body.
  rewrite run_try_catch. cbn [run perform pbind]. rewrite Hb.
  cbn [pbind]. rewrite run_pbind, Hw. cbn [run perform pbind].
  destruct (h (CommitTransaction r) ww) as [[u|e] wc]; cbn.
  - rewrite <- ?app_assoc, ?app_nil_r. reflexivity.
  - destruct (h (RollbackTransaction r) wc) as [[u|e'] w']; cbn;
      rewrite <- ?app_assoc; reflexivity.
Qed.

(** The [try] block when the transaction begins and the work throws. *)
Lemma run_body_throws r work repo {w1 wb e ww calls} :
  h (BeginTransaction r) w1 = (Ok tt, wb) ->
  run h (work repo) wb = (Thrown e, ww, calls) ->
  run h (transaction_body r work repo) w1
  = (after_cleanup (Thrown e) (fst (h (RollbackTransaction r) ww)),
     snd (h (RollbackTransaction r) ww),
     (BeginTransaction r :: calls ++ [RollbackTransaction r])%list).
Proof.
  intros Hb Hw. unfold transaction_body.
  rewrite run_try_catch. cbn [run perform pbind]. rewrite Hb.
  cbn [pbind]. rewrite run_pbind, Hw. cbn.
  destruct (h (RollbackTransaction r) ww) as [[u|e'] w']; reflexivity.
Qed.

(** The [try] block when the transaction does not begin. *)
Lemma run_body_no_begin r work repo {w1 wb e} :
  h (BeginTransaction r) w1 = (Thrown e, wb) ->
  run h (transaction_body r work repo) w1
  = (after_cleanup (Thrown e) (fst (h (RollbackTransaction r) wb)),
     snd (h (RollbackTransaction r) wb),
     [BeginTransaction r; RollbackTransaction r]).
Proof.
  intros Hb. unfold transaction_body.
  rewrite run_try_catch. cbn [run perform pbind]. rewrite Hb.
  cbn.
  destruct (h (RollbackTransaction r) wb) as [[u|e'] w']; reflexivity.
Qed.

Lemma run_cleanup_returns {this p r w w'} :
  cleanup_returns h this p r w w' ->
  run h (transaction_cleanup this p r) w = (Ok tt, w', releases this p r).
Proof.
  intros [w3 [Hrel Hreused]]. rewrite run_transaction_cleanup, Hrel.
  unfold releases. destruct (queryRunnerProvider this).
  - subst w'. reflexivity.
  - rewrite Hreused. reflexivity.
Qed.

Lemma cleanup_releases this p r w :
  exists (done : outcome unit) w' rest,
    run h (transaction_cleanup this p r) w = (done, w', Release p r :: rest) /\
    (rest = [] \/ rest = [ReleaseReused p] /\ queryRunnerProvider this = None).
Proof.
  rewrite run_transaction_cleanup.
  destruct (h (Release p r) w) as [[u|e] w3].
  - destruct (queryRunnerProvider this) eqn:E.
    + do 3 eexists. split; [reflexivity|]. left. reflexivity.
    + do 3 eexists. split; [reflexivity|]. right. split; reflexivity.
  - do 3 eexists. split; [reflexivity|]. left. reflexivity.
Qed.

End Leases.

Section Lifecycle.

Context {W : Type}.
Variable h : handler W.

Lemma leased_calls {this flag w p r w1 pre} :
  leased h this flag w p r w1 pre ->
  filter is_provide pre = [Provide p] /\ filter is_release pre = [].
Proof.
  intros [w0 [Hp _]]. destruct (queryRunnerProvider this).
  - destruct Hp as [_ [_ ->]]. split; reflexivity.
  - destruct Hp as [_ ->]. split; reflexivity.
Qed.

Lemma lease_cycle_intro this flag w p r w1 pre d :
  leased h this flag w p r w1 pre ->
  is_provide d = false -> is_release d = false ->
  lease_cycle (pre ++ [d; Release p r]) pre d p r.
Proof.
  intros Hl Hd1 Hd2. destruct (leased_calls Hl) as [H1 H2].
  unfold lease_cycle. rewrite !filter_app, H1, H2. cbn.
  rewrite Hd1, Hd2. repeat split.
Qed.

(** A transaction whose lease succeeded ends with the [finally] block,
    which starts by releasing the runner. *)
Lemma transaction_runs {this} work {w p r w1 pre res w2 body} :
  leased h this (Some true) w p r w1 pre ->
  run h (transaction_body r work (scoped this p)) w1 = (res, w2, body) ->
  exists (done : outcome unit) w3 rest,
    run h (transaction this work) w
    = (after_cleanup res done, w3,
       (pre ++ body ++ Release p r :: rest)%list) /\
    (rest = [] \/ rest = [ReleaseReused p] /\ queryRunnerProvider this = None).
Proof.
  intros Hl Hb. rewrite (run_transaction h work Hl), Hb.
  destruct (cleanup_releases h this p r w2) as (done & w3 & rest & Hc & Hrest).
  rewrite Hc. exists done, w3, rest. split; [reflexivity | assumption].
Qed.

Lemma transaction_completes {this} work {w p r w1 pre res w2 body w'} :
  leased h this (Some true) w p r w1 pre ->
  run h (transaction_body r work (scoped this p)) w1 = (res, w2, body) ->
  cleanup_returns h this p r w2 w' ->
  run h (transaction this work) w
  = (res, w', (pre ++ body ++ releases this p r)%list).
Proof.
  intros Hl Hb Hc. rewrite (run_transaction h work Hl), Hb.
  rewrite (run_cleanup_returns h Hc). reflexivity.
Qed.

(** A transaction that has begun: the work's calls, the commit or the
    rollback, and then the release. *)
Lemma transaction_releases_begun this work w p r w1 pre wb del ww
    calls_of_work :
  leased h this (Some true) w p r w1 pre ->
  h (BeginTransaction r) w1 = (Ok tt, wb) ->
  run h (work (scoped this p)) wb = (del, ww, calls_of_work) ->
  exists res w' closing rest,
    run h (transaction this work) w
    = (res, w',
       (pre ++ BeginTransaction r :: calls_of_work
            ++ closing ++ Release p r :: rest)%list) /\
    filter is_release (closing ++ rest) = [] /\
    filter is_provide (closing ++ rest) = [] /\
    (forall e wr w'',
        del = Thrown e ->
        h (RollbackTransaction r) ww = (Ok tt, wr) ->
        cleanup_returns h this p r wr w'' ->
        res = Thrown e) /\
    (forall v wc w'',
        del = Ok v ->
        h (CommitTransaction r) ww = (Ok tt, wc) ->
        cleanup_returns h this p r wc w'' ->
        res = Ok v).
Proof.
  intros Hl Hb Hw.
  destruct del as [v|e].
  + pose proof (run_body_returns h r work (scoped this p) Hb Hw) as Hbody.
    destruct (h (CommitTransaction r) ww) as [[u|e] wc] eqn:Hc.
    * destruct (transaction_runs work Hl Hbody)
        as (done & w3 & rest & Hrun & Hrest).
      exists (after_cleanup (Ok v) done), w3, [CommitTransaction r], rest.
      split; [|split; [|split; [|split]]].
      -- rewrite Hrun. cbn. rewrite <- app_assoc. reflexivity.
      -- destruct Hrest as [->|[-> _]]; reflexivity.
      -- destruct Hrest as [->|[-> _]]; reflexivity.
      -- discriminate.
      -- intros v' wc' w'' Hv Hc' Hcl. inversion Hv; subst v'.
         inversion Hc'; subst wc'.
         rewrite (transaction_completes work Hl Hbody Hcl) in Hrun.
         inversion Hrun as [[Hres Hw3 Hcalls]]. congruence.
    * destruct (transaction_runs work Hl Hbody)
        as (done & w3 & rest & Hrun & Hrest).
      eexists _, w3, [CommitTransaction r; RollbackTransaction r], rest.
      split; [|split; [|split; [|split]]].
      -- rewrite Hrun. cbn. rewrite <- app_assoc. reflexivity.
      -- destruct Hrest as [->|[-> _]]; reflexivity.
      -- destruct Hrest as [->|[-> _]]; reflexivity.
      -- discriminate.
      -- intros v' wc' w'' _ Hc'. discriminate.
  + pose proof (run_body_throws h r work (scoped this p) Hb Hw) as Hbody.
    destruct (transaction_runs work Hl Hbody)
      as (done & w3 & rest & Hrun & Hrest).
    eexists _, w3, [RollbackTransaction r], rest.
    split; [|split; [|split; [|split]]].
    * rewrite Hrun. cbn. rewrite <- app_assoc. reflexivity.
    * destruct Hrest as [->|[-> _]]; reflexivity.
    * destruct Hrest as [->|[-> _]]; reflexivity.
    * intros e' wr w'' He Hr Hcl. inversion He; subst e'.
      rewrite Hr in Hbody. cbn [fst snd after_cleanup] in Hbody.
      rewrite (transaction_completes work Hl Hbody Hcl) in Hrun.
      inversion Hrun as [[Hres Hw3 Hcalls]]. congruence.
    * discriminate.
Qed.

(** C2. After a successful [provide], [persist], [remove] and [query] on one
    entity make their delegate call and then release the runner, once,
    whether the delegate returned or threw.  After a successful [provide],
    [transaction] releases the runner once on every path: [beginTransaction]
    is called, then come the calls of the work, none when the transaction
    did not begin, then the commit or the rollback, and then the release;
    apart from the calls of the work no other call leases or releases a
    runner.  When the cleanup returns, the outcome is the delegate's: its
    error reaches the caller as thrown. *)
Theorem release_exactly_once (this : Repository) (w : W)
    (p : QueryRunnerProvider) (r : QueryRunner) (w1 : W) (pre : list call) :
  (forall entity del w2 rel w3,
      leased h this None w p r w1 pre ->
      let d := PersisterPersist (connection this) (metadata this) r entity in
      h d w1 = (del, w2) ->
      h (Release p r) w2 = (rel, w3) ->
      exists calls,
        run h (persist_entity this entity) w
        = (after_cleanup del rel, w3, calls) /\
        lease_cycle calls pre d p r /\
        (rel = Ok tt -> after_cleanup del rel = del)) /\
  (forall entity del w2 rel w3,
      leased h this (Some true) w p r w1 pre ->
      let d := PersisterRemove (connection this) (metadata this) r entity in
      h d w1 = (del, w2) ->
      h (Release p r) w2 = (rel, w3) ->
      exists calls,
        run h (remove_entity this entity) w
        = (after_cleanup del rel, w3, calls) /\
        lease_cycle calls pre d p r /\
        (rel = Ok tt -> after_cleanup del rel = del)) /\
  (forall sql del w2 rel w3,
      leased h this None w p r w1 pre ->
      let d := RunnerQuery r sql in
      h d w1 = (del, w2) ->
      h (Release p r) w2 = (rel, w3) ->
      exists calls,
        run h (query this sql) w = (after_cleanup del rel, w3, calls) /\
        lease_cycle calls pre d p r /\
        (rel = Ok tt -> after_cleanup del rel = del)) /\
  (forall work,
      leased h this (Some true) w p r w1 pre ->
      exists res w' inner closing rest,
        run h (transaction this work) w
        = (res, w',
           (pre ++ BeginTransaction r :: inner
                ++ closing ++ Release p r :: rest)%list) /\
        filter is_release (closing ++ rest) = [] /\
        filter is_provide (closing ++ rest) = [] /\
        (forall e wb,
            h (BeginTransaction r) w1 = (Thrown e, wb) -> inner = []) /\
        (forall wb del ww calls_of_work,
            h (BeginTransaction r) w1 = (Ok tt, wb) ->
            run h (work (scoped this p)) wb = (del, ww, calls_of_work) ->
            inner = calls_of_work /\
            (forall e wr w'',
                del = Thrown e ->
                h (RollbackTransaction r) ww = (Ok tt, wr) ->
                cleanup_returns h this p r wr w'' ->
                res = Thrown e) /\
            (forall v wc w'',
                del = Ok v ->
                h (CommitTransaction r) ww = (Ok tt, wc) ->
                cleanup_returns h this p r wc w'' ->
                res = Ok v))).
Proof.
  split; [|split; [|split]].
  - intros entity del w2 rel w3 Hl d Hd Hr. eexists. split; [|split].
    + rewrite (run_persist_entity h entity Hl). fold d.
      rewrite Hd. cbn [fst snd]. rewrite Hr. reflexivity.
    + eapply lease_cycle_intro; [exact Hl | reflexivity | reflexivity].
    + intros ->. reflexivity.
  - intros entity del w2 rel w3 Hl d Hd Hr. eexists. split; [|split].
    + rewrite (run_remove_entity h entity Hl). fold d.
      rewrite Hd. cbn [fst snd]. rewrite Hr. reflexivity.
    + eapply lease_cycle_intro; [exact Hl | reflexivity | reflexivity].
    + intros ->. reflexivity.
  - intros sql del w2 rel w3 Hl d Hd Hr. eexists. split; [|split].
    + rewrite (run_query h sql Hl). fold d.
      rewrite Hd. cbn [fst snd]. rewrite Hr. reflexivity.
    + eapply lease_cycle_intro; [exact Hl | reflexivity | reflexivity].
    + intros ->. reflexivity.
  - intros work Hl.
    destruct (h (BeginTransaction r) w1) as [[[]|e] wb] eqn:Hb.
    + destruct (run h (work (scoped this p)) wb) as [[del ww] cw] eqn:Hw.
      destruct (transaction_releases_begun this work w p r w1 pre wb del ww
                  cw Hl Hb Hw)
        as (res & w' & closing & rest & Hrun & Hrel & Hprov & Hthrow & Hret).
      exists res, w', cw, closing, rest.
      split; [exact Hrun|]. split; [exact Hrel|]. split; [exact Hprov|].
      split; [discriminate|].
      intros wb' del' ww' cw' Hb' Hw'.
      inversion Hb'; subst wb'. rewrite Hw in Hw'.
      inversion Hw'; subst del' ww' cw'.
      split; [reflexivity|]. split; assumption.
    + pose proof (run_body_no_begin h r work (scoped this p) Hb) as Hbody.
      destruct (transaction_runs work Hl Hbody)
        as (done & w3 & rest & Hrun & Hrest).
      eexists _, w3, [], [RollbackTransaction r], rest.
      split; [|split; [|split; [|split]]].
      * rewrite Hrun. reflexivity.
      * destruct Hrest as [->|[-> _]]; reflexivity.
      * destruct Hrest as [->|[-> _]]; reflexivity.
      * reflexivity.
      * discriminate.
Qed.

(** C1. [transaction] leases a runner from the provider given at
    construction, or from one it makes, begins a transaction and calls the
    work with a repository bound to that provider, whose operations lease
    from it without making a provider.  When the work returns it commits and
    returns the work's result; when the work throws it rolls back and
    rethrows the error.  Whatever happens after the lease, the [finally]
    block releases the runner; [releaseReused] is called on the provider
    exactly when the repository was constructed without one. *)
Theorem transaction_lifecycle (this : Repository)
    (work : Repository -> prog value) (w : W)
    (p : QueryRunnerProvider) (r : QueryRunner) (w1 : W) (pre : list call) :
  leased h this (Some true) w p r w1 pre ->
  (pre = match queryRunnerProvider this with
         | Some p0 => [Provide p0]
         | None => [NewQueryRunnerProvider (driver (connection this))
                                           (Some true); Provide p]
         end /\
   (forall p0, queryRunnerProvider this = Some p0 -> p = p0)) /\
  (queryRunnerProvider (scoped this p) = Some p /\
   connection (scoped this p) = connection this /\
   metadata (scoped this p) = metadata this /\
   forall flag, provider_or_new (scoped this p) flag = Ret p) /\
  (forall res w2 body,
      run h (transaction_body r work (scoped this p)) w1 = (res, w2, body) ->
      exists res' w' rest,
        run h (transaction this work) w
        = (res', w', (pre ++ body ++ Release p r :: rest)%list) /\
        (rest = [] \/
         rest = [ReleaseReused p] /\ queryRunnerProvider this = None)) /\
  (forall wb del ww calls_of_work,
      h (BeginTransaction r) w1 = (Ok tt, wb) ->
      run h (work (scoped this p)) wb = (del, ww, calls_of_work) ->
      (forall v wc w',
          del = Ok v ->
          h (CommitTransaction r) ww = (Ok tt, wc) ->
          cleanup_returns h this p r wc w' ->
          run h (transaction this work) w
          = (Ok v, w',
             (pre ++ BeginTransaction r :: calls_of_work
                  ++ CommitTransaction r :: releases this p r)%list)) /\
      (forall e wr w',
          del = Thrown e ->
          h (RollbackTransaction r) ww = (Ok tt, wr) ->
          cleanup_returns h this p r wr w' ->
          run h (transaction this work) w
          = (Thrown e, w',
             (pre ++ BeginTransaction r :: calls_of_work
                  ++ RollbackTransaction r :: releases this p r)%list))) /\
  (In (ReleaseReused p) (releases this p r)
   <-> queryRunnerProvider this = None).
Proof.
  intro Hl. split; [|split; [|split; [|split]]].
  - destruct Hl as [w0 [Hp _]].
    destruct (queryRunnerProvider this) as [p0|].
    + destruct Hp as [-> [_ ->]]. split; [reflexivity|].
      intros p1 Hp1. congruence.
    + destruct Hp as [_ ->]. split; [reflexivity | discriminate].
  - repeat split.
  - intros res w2 body Hbody.
    destruct (transaction_runs work Hl Hbody)
      as (done & w3 & rest & Hrun & Hrest).
    exists (after_cleanup res done), w3, rest. split; assumption.
  - intros wb del ww calls_of_work Hb Hw. split.
    + intros v wc w' -> Hc Hcl.
      pose proof (run_body_returns h r work (scoped this p) Hb Hw) as Hbody.
      rewrite Hc in Hbody.
      rewrite (transaction_completes work Hl Hbody Hcl).
      cbn [app]. rewrite <- app_assoc. reflexivity.
    + intros e wr w' -> Hr Hcl.
      pose proof (run_body_throws h r work (scoped this p) Hb Hw) as Hbody.
      rewrite Hr in Hbody. cbn [fst snd after_cleanup] in Hbody.
      rewrite (transaction_completes work Hl Hbody Hcl).
      cbn [app]. rewrite <- app_assoc. reflexivity.
  - unfold releases. destruct (queryRunnerProvider this) as [p0|]; cbn.
    + split; [intros [H|[]]; discriminate | discriminate].
    + split; [reflexivity | intros _; right; left; reflexivity].
Qed.

(** C7. When the work throws and the rollback throws too, the runner is
    released all the same, and once the cleanup returns the caller gets the
    error of the rollback, whatever the error of the work was. *)
Theorem rollback_failure_propagates (this : Repository)
    (work : Repository -> prog value) (w : W)
    (p : QueryRunnerProvider) (r : QueryRunner) (w1 : W) (pre : list call)
    (wb ww wr : W) (calls_of_work : list call)
    (work_error rollback_error : value) :
  leased h this (Some true) w p r w1 pre ->
  h (BeginTransaction r) w1 = (Ok tt, wb) ->
  run h (work (scoped this p)) wb = (Thrown work_error, ww, calls_of_work) ->
  h (RollbackTransaction r) ww = (Thrown rollback_error, wr) ->
  (exists res w' rest,
      run h (transaction this work) w
      = (res, w',
         (pre ++ BeginTransaction r :: calls_of_work
              ++ RollbackTransaction r :: Release p r :: rest)%list)) /\
  (forall w',
      cleanup_returns h this p r wr w' ->
      run h (transaction this work) w
      = (Thrown rollback_error, w',
         (pre ++ BeginTransaction r :: calls_of_work
              ++ RollbackTransaction r :: releases this p r)%list)).
Proof.
  intros Hl Hb Hw Hr.
  pose proof (run_body_throws h r work (scoped this p) Hb Hw) as Hbody.
  rewrite Hr in Hbody. cbn [fst snd after_cleanup] in Hbody. split.
  - destruct (transaction_runs work Hl Hbody)
      as (done & w3 & rest & Hrun & _).
    exists (after_cleanup (Thrown rollback_error) done), w3, rest.
    rewrite Hrun. cbn [app]. rewrite <- app_assoc. reflexivity.
  - intros w' Hcl. rewrite (transaction_completes work Hl Hbody Hcl).
    cbn [app]. rewrite <- app_assoc. reflexivity.
Qed.

(** When the transaction does not begin, the work is not called: the
    [catch] clause rolls back and the error of [beginTransaction] is
    rethrown after the cleanup. *)
Lemma transaction_begin_fails this work w p r w1 pre e wb wr w' :
  leased h this (Some true) w p r w1 pre ->
  h (BeginTransaction r) w1 = (Thrown e, wb) ->
  h (RollbackTransaction r) wb = (Ok tt, wr) ->
  cleanup_returns h this p r wr w' ->
  run h (transaction this work) w
  = (Thrown e, w',
     (pre ++ BeginTransaction r :: RollbackTransaction r
          :: releases this p r)%list).
Proof.
  intros Hl Hb Hr Hcl.
  pose proof (run_body_no_begin h r work (scoped this p) Hb) as Hbody.
  rewrite Hr in Hbody. cbn [fst snd after_cleanup] in Hbody.
  rewrite (transaction_completes work Hl Hbody Hcl). reflexivity.
Qed.

(** When no runner can be leased, nothing is delegated and nothing is
    released: the error of the acquisition is the outcome. *)
Lemma run_lease_fails {A} this flag w e w' pre
    (k : QueryRunnerProvider -> QueryRunner -> prog A) :
  lease_fails h this flag w e w' pre ->
  run h (pbind (provider_or_new this flag) (fun p =>
         pbind (perform (Provide p)) (fun r => k p r))) w
  = (Thrown e, w', pre).
Proof.
  unfold lease_fails, provider_or_new.
  destruct (queryRunnerProvider this) as [p0|].
  - intros [Hp ->]. cbn. rewrite Hp. reflexivity.
  - intros [[Hn ->]|(p & w0 & Hn & Hp & ->)]; cbn; rewrite Hn; cbn.
    + reflexivity.
    + rewrite Hp. reflexivity.
Qed.

Lemma failed_lease_runs this w e w' pre :
  (lease_fails h this None w e w' pre ->
   (forall entity,
       run h (persist_entity this entity) w = (Thrown e, w', pre)) /\
   (forall sql, run h (query this sql) w = (Thrown e, w', pre))) /\
  (lease_fails h this (Some true) w e w' pre ->
   (forall entity,
       run h (remove_entity this entity) w = (Thrown e, w', pre)) /\
   (forall work, run h (transaction this work) w = (Thrown e, w', pre))) /\
  (forall flag, lease_fails h this flag w e w' pre ->
                filter is_release pre = []).
Proof.
  split; [|split].
  - intro Hf. split; intros; apply run_lease_fails; assumption.
  - intro Hf. split; intros; apply run_lease_fails; assumption.
  - intros flag. unfold lease_fails.
    destruct (queryRunnerProvider this) as [p0|].
    + intros [_ ->]. reflexivity.
    + intros [[_ ->]|(p & w0 & _ & _ & ->)]; reflexivity.
Qed.

End Lifecycle.

(** ** The theorems at work on the sample collaborators *)

Lemma standalone_leased fails flag :
  fails (NewQueryRunnerProvider 0 flag) = None ->
  fails (Provide 7) = None ->
  leased (mock fails) standalone flag 0 7 107 2 (standalone_lease flag).
Proof.
  intros Hn Hp. exists 1. unfold mock. cbn. rewrite Hn, Hp.
  repeat split.
Defined.

Lemma standalone_cleanup fails w :
  fails (Release 7 107) = None ->
  fails (ReleaseReused 7) = None ->
  cleanup_returns (mock fails) standalone 7 107 w (S (S w)).
Proof.
  intros Hr Hu. exists (S w). unfold mock. cbn. rewrite Hr, Hu.
  split; reflexivity.
Defined.

(** [transaction(repo => repo.persist(point))] commits and returns the
    persisted entity; with a work that throws after persisting, it rolls
    back and rejects with the work's error. *)
Lemma transaction_lifecycle_witness :
  let h := mock never_fails in
  leased h standalone (Some true) 0 7 107 2 (standalone_lease (Some true)) /\
  run h (transaction standalone work_persists) 0
  = (Ok (VObject point), 9,
     (standalone_lease (Some true) ++ BeginTransaction 107
        :: nested_persist_calls
        ++ [CommitTransaction 107; Release 7 107; ReleaseReused 7])%list) /\
  run h (transaction standalone work_persists_then_throws) 0
  = (Thrown (VString "Error"), 9,
     (standalone_lease (Some true) ++ BeginTransaction 107
        :: nested_persist_calls
        ++ [RollbackTransaction 107; Release 7 107; ReleaseReused 7])%list).
Proof.
  intro h.
  pose proof (standalone_leased never_fails (Some true) eq_refl eq_refl) as Hl.
  split; [exact Hl|]. split.
  - destruct (transaction_lifecycle h standalone work_persists 0 7 107 2
                (standalone_lease (Some true)) Hl)
      as (_ & _ & _ & Hpaths & _).
    destruct (Hpaths 3 (Ok (VObject point)) 6 nested_persist_calls
                eq_refl eq_refl) as [Hcommit _].
    exact (Hcommit (VObject point) 7 9 eq_refl eq_refl
             (standalone_cleanup never_fails 7 eq_refl eq_refl)).
  - destruct (transaction_lifecycle h standalone work_persists_then_throws
                0 7 107 2 (standalone_lease (Some true)) Hl)
      as (_ & _ & _ & Hpaths & _).
    destruct (Hpaths 3 (Thrown (VString "Error")) 6 nested_persist_calls
                eq_refl eq_refl) as [_ Hrollback].
    exact (Hrollback (VString "Error") 7 9 eq_refl eq_refl
             (standalone_cleanup never_fails 7 eq_refl eq_refl)).
Defined.

(** [persist(point)] with a persister that throws: the runner is released
    once and the persister's error reaches the caller.  A transaction that
    cannot begin: the work makes no call, and the runner is released. *)
Lemma release_exactly_once_witness :
  let h := mock persist_fails in
  let d := PersisterPersist example_connection example_metadata_xy 107 point in
  leased h standalone None 0 7 107 2 (standalone_lease None) /\
  (exists calls,
      run h (persist_entity standalone point) 0
      = (Thrown (VString "constraint violated"), 4, calls) /\
      lease_cycle calls (standalone_lease None) d 7 107) /\
  leased (mock begin_fails) standalone (Some true) 0 7 107 2
         (standalone_lease (Some true)) /\
  exists res w' closing rest,
    run (mock begin_fails) (transaction standalone work_persists) 0
    = (res, w',
       (standalone_lease (Some true) ++ BeginTransaction 107
          :: closing ++ Release 7 107 :: rest)%list) /\
    filter is_release (closing ++ rest) = [] /\
    filter is_provide (closing ++ rest) = [].
Proof.
  intros h d.
  pose proof (standalone_leased persist_fails None eq_refl eq_refl) as Hl.
  pose proof (standalone_leased begin_fails (Some true) eq_refl eq_refl)
    as Hlb.
  split; [exact Hl|]. split; [|split; [exact Hlb|]].
  - destruct (proj1 (release_exactly_once h standalone 0 7 107 2
                       (standalone_lease None))
                point (Thrown (VString "constraint violated")) 3 (Ok tt) 4
                Hl eq_refl eq_refl)
      as [calls [Hrun [Hcycle _]]].
    exists calls. split; [exact Hrun | exact Hcycle].
  - destruct (proj2 (proj2 (proj2 (release_exactly_once
                                     (mock begin_fails) standalone 0 7 107 2
                                     (standalone_lease (Some true)))))
                work_persists Hlb)
      as (res & w' & inner & closing & rest & Hrun & Hrel & Hprov & Hnone & _).
    rewrite (Hnone (VString "begin failed") 3 eq_refl) in Hrun.
    exists res, w', closing, rest.
    split; [exact Hrun|]. split; [exact Hrel | exact Hprov].
Defined.

(** The work throws ["Error"], the rollback throws ["rollback failed"]: the
    caller gets the latter, after the release. *)
Lemma rollback_failure_propagates_witness :
  let h := mock rollback_fails in
  leased h standalone (Some true) 0 7 107 2 (standalone_lease (Some true)) /\
  run h (transaction standalone work_persists_then_throws) 0
  = (Thrown (VString "rollback failed"), 9,
     (standalone_lease (Some true) ++ BeginTransaction 107
        :: nested_persist_calls
        ++ [RollbackTransaction 107; Release 7 107; ReleaseReused 7])%list).
Proof.
  intro h.
  pose proof (standalone_leased rollback_fails (Some true) eq_refl eq_refl)
    as Hl.
  split; [exact Hl|].
  exact (proj2 (rollback_failure_propagates h standalone
                  work_persists_then_throws 0 7 107 2
                  (standalone_lease (Some true)) 3 6 7 nested_persist_calls
                  (VString "Error") (VString "rollback failed")
                  Hl eq_refl eq_refl eq_refl)
               9 (standalone_cleanup rollback_fails 7 eq_refl eq_refl)).
Defined.

(** ** [Promise.all] over sibling operations *)

Lemma length_set_nth {A} i (x : A) l :
  List.length (set_nth i x l) = List.length l.
Proof.
  revert i. induction l as [|y l IH]; intros [|i]; cbn; auto.
Qed.

Lemma nth_error_set_nth_eq {A} i (x y : A) l :
  nth_error l i = Some y -> nth_error (set_nth i x l) i = Some x.
Proof.
  revert i. induction l as [|z l IH]; intros [|i]; cbn; try discriminate; auto.
Qed.

Lemma nth_error_set_nth_ne {A} i j (x : A) l :
  i <> j -> nth_error (set_nth i x l) j = nth_error l j.
Proof.
  revert i j. induction l as [|z l IH]; intros [|i] [|j] H; cbn; auto.
  contradiction.
Qed.

Lemma map_set_nth {A B} (f : A -> B) i x l :
  map f (set_nth i x l) = set_nth i (f x) (map f l).
Proof.
  revert i. induction l as [|z l IH]; intros [|i]; cbn; auto.
  rewrite IH. reflexivity.
Qed.

Lemma set_nth_same {A} i (x : A) l :
  nth_error l i = Some x -> set_nth i x l = l.
Proof.
  revert i. induction l as [|z l IH]; intros [|i]; cbn; try discriminate.
  - intros [= ->]. reflexivity.
  - intro H. rewrite IH by assumption. reflexivity.
Qed.

Lemma all_some_None {A} (l : list (option A)) i :
  nth_error l i = Some None -> all_some l = None.
Proof.
  revert i. induction l as [|[x|] l IH]; intros [|i]; cbn; try discriminate.
  - intro H. rewrite (IH i H). reflexivity.
  - reflexivity.
  - reflexivity.
Qed.

Lemma all_some_map_Some {A} (l : list A) : all_some (map Some l) = Some l.
Proof.
  induction l as [|x l IH]; cbn; [reflexivity|]. rewrite IH. reflexivity.
Qed.

Lemma first_rejection_app ev1 ev2 :
  first_rejection (ev1 ++ ev2)
  = match first_rejection ev1 with
    | Some e => Some e
    | None => first_rejection ev2
    end.
Proof.
  induction ev1 as [|[i c a|i [v|e]] ev1 IH]; cbn; auto.
Qed.

Lemma calls_of_app i ev1 ev2 :
  calls_of i (ev1 ++ ev2) = (calls_of i ev1 ++ calls_of i ev2)%list.
Proof. unfold calls_of. apply flat_map_app. Qed.

Lemma replies_of_app i ev1 ev2 :
  replies_of i (ev1 ++ ev2) = (replies_of i ev1 ++ replies_of i ev2)%list.
Proof. unfold replies_of. apply flat_map_app. Qed.

(** The calls of a sibling are those of its replies. *)
Lemma calls_of_replies i events :
  calls_of i events = map (@projT1 _ _) (replies_of i events).
Proof.
  unfold calls_of, replies_of.
  induction events as [|[j c a|j res] events IH]; cbn [flat_map map].
  - reflexivity.
  - rewrite map_app. f_equal; [|exact IH].
    destruct (Nat.eqb j i); reflexivity.
  - exact IH.
Qed.

Lemma existsb_set_nth_rejected i t ts t0 :
  nth_error ts i = Some t0 ->
  is_rejected t0 = false ->
  existsb is_rejected (set_nth i t ts)
  = is_rejected t || existsb is_rejected ts.
Proof.
  revert i. induction ts as [|z ts IH]; intros [|i]; cbn; try discriminate.
  - intros [= ->] ->. reflexivity.
  - intros H H0. rewrite (IH i H H0).
    destruct (is_rejected z), (is_rejected t); reflexivity.
Qed.

Lemma trail_snoc m replies c k a :
  trail m replies (Vis c k) ->
  trail m (replies ++ [answered c a]) (k a).
Proof.
  revert m. induction replies as [|rp replies IH]; intros m H.
  - change (m = Vis c k) in H. rewrite H.
    exists a. split; reflexivity.
  - destruct m as [v|e|c1 k1]; try contradiction.
    destruct H as [a1 [-> H]]. exists a1. split; [reflexivity|].
    apply IH. assumption.
Qed.

(** A trail is a path through the tree. *)
Lemma trail_follows m replies m' :
  trail m replies m' -> follows m (map (@projT1 _ _) replies) m'.
Proof.
  revert m. induction replies as [|rp replies IH]; intros m H.
  - exact H.
  - destruct m as [v|e|c k]; try contradiction.
    destruct H as [a [-> H]]. split; [reflexivity|].
    exists a. apply IH. assumption.
Qed.

Section Pool.

Context {W : Type}.
Variable h : handler W.

Lemma step_length i pl w :
  List.length (tasks (fst (fst (step h i pl w)))) = List.length (tasks pl).
Proof.
  unfold step. destruct (nth_error (tasks pl) i) as [[[v|e|c k]|res]|];
    try reflexivity.
  - apply length_set_nth.
  - apply length_set_nth.
  - destruct (h c w) as [r w']. apply length_set_nth.
Qed.

(** A step leaves the other siblings where they are. *)
Lemma step_other {i j} pl w :
  i <> j ->
  nth_error (tasks (fst (fst (step h i pl w)))) j = nth_error (tasks pl) j /\
  calls_of j (snd (step h i pl w)) = [].
Proof.
  intro Hij. unfold step.
  destruct (nth_error (tasks pl) i) as [[[v|e|c k]|res]|]; cbn;
    try (split; [apply nth_error_set_nth_ne; assumption | reflexivity]);
    try (split; reflexivity).
  destruct (h c w) as [r w']. cbn. split.
  - apply nth_error_set_nth_ne. assumption.
  - destruct (Nat.eqb_spec i j); [contradiction | reflexivity].
Qed.

Lemma step_other_replies {i j} pl w :
  i <> j -> replies_of j (snd (step h i pl w)) = [].
Proof.
  intro Hij. unfold step.
  destruct (nth_error (tasks pl) i) as [[[v|e|c k]|res]|]; cbn;
    try reflexivity.
  destruct (h c w) as [r w']. cbn.
  destruct (Nat.eqb_spec i j); [contradiction | reflexivity].
Qed.

(** A settled sibling stays settled. *)
Lemma step_settled i j pl w res :
  nth_error (tasks pl) j = Some (Settled res) ->
  nth_error (tasks (fst (fst (step h i pl w)))) j = Some (Settled res).
Proof.
  intro Hj. destruct (Nat.eq_dec i j) as [->|Hij].
  - unfold step. rewrite Hj. exact Hj.
  - rewrite (proj1 (step_other pl w Hij)). exact Hj.
Qed.

Lemma step_stands m0 i j pl w events :
  stands m0 j pl events ->
  stands m0 j (fst (fst (step h i pl w))) (events ++ snd (step h i pl w)).
Proof.
  intros (m' & Hf & Ht). unfold stands. rewrite replies_of_app.
  destruct (Nat.eq_dec i j) as [->|Hij].
  - unfold step.
    destruct Ht as [Ht|(res & Ht & ->)]; rewrite Ht.
    + destruct m' as [v|e|c k].
      * cbn [fst snd replies_of flat_map tasks]. rewrite app_nil_r.
        exists (Ret v). split; [assumption|].
        right. exists (Ok v). split; [|reflexivity].
        eapply nth_error_set_nth_eq. eassumption.
      * cbn [fst snd replies_of flat_map tasks]. rewrite app_nil_r.
        exists (Throw e). split; [assumption|].
        right. exists (Thrown e). split; [|reflexivity].
        eapply nth_error_set_nth_eq. eassumption.
      * destruct (h c w) as [r w'].
        cbn [fst snd replies_of flat_map tasks]. rewrite Nat.eqb_refl.
        cbn [app]. exists (k r). split.
        -- apply trail_snoc. assumption.
        -- left. eapply nth_error_set_nth_eq. eassumption.
    + cbn [fst snd replies_of flat_map]. rewrite app_nil_r.
      exists (leaf res). split; [assumption|].
      right. exists res. split; [assumption | reflexivity].
  - rewrite (step_other_replies pl w Hij), app_nil_r.
    rewrite (proj1 (step_other pl w Hij)). exists m'. split; assumption.
Qed.

Lemma step_joined i pl w events :
  joined_by pl events ->
  joined_by (fst (fst (step h i pl w))) (events ++ snd (step h i pl w)).
Proof.
  intros (Hs & Ha & Hr). unfold joined_by. rewrite first_rejection_app.
  unfold step.
  destruct (nth_error (tasks pl) i) as [[[v|e|c k]|res]|] eqn:Hi.
  - (* fulfilled *)
    assert (Hslot : nth_error (slots (joined pl)) i = Some None).
    { rewrite Hs, nth_error_map, Hi. reflexivity. }
    cbn [fst snd tasks joined slots aggregate first_rejection on_fulfilled].
    rewrite (existsb_set_nth_rejected _ _ _ _ Hi eq_refl).
    cbn [is_rejected orb]. split; [|split].
    + rewrite Hs, map_set_nth. reflexivity.
    + rewrite Ha. destruct (first_rejection events) as [e0|]; [reflexivity|].
      rewrite (all_some_None _ _ Hslot). cbn [option_map].
      destruct (all_some (set_nth i (Some v) (slots (joined pl))));
        reflexivity.
    + destruct (first_rejection events); exact Hr.
  - (* rejected *)
    assert (Hslot : nth_error (slots (joined pl)) i = Some None).
    { rewrite Hs, nth_error_map, Hi. reflexivity. }
    cbn [fst snd tasks joined slots aggregate first_rejection on_rejected].
    rewrite (existsb_set_nth_rejected _ _ _ _ Hi eq_refl).
    cbn [is_rejected orb]. split; [|split].
    + rewrite Hs, map_set_nth. cbn [slot_of].
      symmetry. apply set_nth_same.
      rewrite nth_error_map, Hi. reflexivity.
    + rewrite Ha. destruct (first_rejection events) as [e0|]; [reflexivity|].
      rewrite (all_some_None _ _ Hslot). reflexivity.
    + split; [|reflexivity].
      intros _. destruct (first_rejection events); discriminate.
  - (* a call *)
    destruct (h c w) as [r w'].
    cbn [fst snd tasks joined slots aggregate first_rejection].
    rewrite (existsb_set_nth_rejected _ _ _ _ Hi eq_refl).
    cbn [is_rejected orb]. split; [|split].
    + rewrite Hs, map_set_nth. cbn [slot_of].
      symmetry. apply set_nth_same.
      rewrite nth_error_map, Hi. reflexivity.
    + rewrite Ha. destruct (first_rejection events); reflexivity.
    + destruct (first_rejection events); exact Hr.
  - cbn [fst snd first_rejection].
    split; [assumption|]. split.
    + rewrite Ha. destruct (first_rejection events); reflexivity.
    + destruct (first_rejection events); exact Hr.
  - cbn [fst snd first_rejection].
    split; [assumption|]. split.
    + rewrite Ha. destruct (first_rejection events); reflexivity.
    + destruct (first_rejection events); exact Hr.
Qed.

Lemma run_pool_cons i schedule pl w :
  run_pool h (i :: schedule) pl w
  = let pl1 := fst (fst (step h i pl w)) in
    let w1 := snd (fst (step h i pl w)) in
    (fst (fst (run_pool h schedule pl1 w1)),
     snd (fst (run_pool h schedule pl1 w1)),
     (snd (step h i pl w) ++ snd (run_pool h schedule pl1 w1))%list).
Proof.
  cbn [run_pool]. destruct (step h i pl w) as [[pl1 w1] events1].
  cbn [fst snd]. destruct (run_pool h schedule pl1 w1) as [[pl2 w2] events2].
  reflexivity.
Qed.

Lemma run_pool_length schedule pl w :
  List.length (tasks (fst (fst (run_pool h schedule pl w))))
  = List.length (tasks pl).
Proof.
  revert pl w. induction schedule as [|i schedule IH]; intros pl w.
  - reflexivity.
  - rewrite run_pool_cons. cbn [fst snd]. rewrite IH. apply step_length.
Qed.

Lemma run_pool_stands m0 j schedule pl w events :
  stands m0 j pl events ->
  stands m0 j (fst (fst (run_pool h schedule pl w)))
         (events ++ snd (run_pool h schedule pl w)).
Proof.
  revert pl w events. induction schedule as [|i schedule IH];
    intros pl w events H.
  - cbn. rewrite app_nil_r. assumption.
  - rewrite run_pool_cons. cbn [fst snd]. rewrite app_assoc.
    apply IH. apply step_stands. assumption.
Qed.

Lemma run_pool_joined schedule pl w events :
  joined_by pl events ->
  joined_by (fst (fst (run_pool h schedule pl w)))
            (events ++ snd (run_pool h schedule pl w)).
Proof.
  revert pl w events. induction schedule as [|i schedule IH];
    intros pl w events H.
  - cbn. rewrite app_nil_r. assumption.
  - rewrite run_pool_cons. cbn [fst snd]. rewrite app_assoc.
    apply IH. apply step_joined. assumption.
Qed.

Lemma run_pool_settled j schedule pl w res :
  nth_error (tasks pl) j = Some (Settled res) ->
  nth_error (tasks (fst (fst (run_pool h schedule pl w)))) j
  = Some (Settled res).
Proof.
  revert pl w. induction schedule as [|i schedule IH]; intros pl w H.
  - assumption.
  - rewrite run_pool_cons. cbn [fst snd]. apply IH.
    apply step_settled. assumption.
Qed.

(** A sibling scheduled once more than it has calls left settles. *)
Lemma run_pool_completes j schedule : forall pl w n m,
  nth_error (tasks pl) j = Some (Running m) ->
  within n m ->
  S n <= count_occ Nat.eq_dec schedule j ->
  exists res,
    nth_error (tasks (fst (fst (run_pool h schedule pl w)))) j
    = Some (Settled res).
Proof.
  induction schedule as [|i schedule IH]; intros pl w n m Hj Hn Hc.
  - cbn in Hc. lia.
  - rewrite run_pool_cons. cbn [fst snd].
    cbn [count_occ] in Hc. destruct (Nat.eq_dec i j) as [->|Hij].
    + unfold step. rewrite Hj. destruct m as [v|e|c k].
      * exists (Ok v). apply run_pool_settled. cbn [fst snd tasks].
        eapply nth_error_set_nth_eq. eassumption.
      * exists (Thrown e). apply run_pool_settled. cbn [fst snd tasks].
        eapply nth_error_set_nth_eq. eassumption.
      * destruct n as [|n]; [contradiction|].
        destruct (h c w) as [r w']. cbn [fst snd].
        apply (IH _ w' n (k r)).
        -- cbn [tasks]. eapply nth_error_set_nth_eq. eassumption.
        -- apply Hn.
        -- lia.
    + apply (IH _ _ n m).
      * rewrite (proj1 (step_other pl w Hij)). assumption.
      * assumption.
      * assumption.
Qed.

End Pool.

Lemma promise_all_stands siblings i m0 :
  nth_error siblings i = Some m0 ->
  stands m0 i (promise_all siblings) [].
Proof.
  intro H. exists m0. split; [reflexivity|]. left.
  cbn. rewrite nth_error_map, H. reflexivity.
Qed.

Lemma promise_all_joined siblings : joined_by (promise_all siblings) [].
Proof.
  unfold joined_by, promise_all. cbn. split; [|split].
  - induction siblings as [|m ms IH]; cbn; [reflexivity|].
    rewrite IH. reflexivity.
  - destruct siblings; reflexivity.
  - split; [|intro H; contradiction H; reflexivity].
    intro H. exfalso. induction siblings as [|m ms IH]; cbn in H.
    + discriminate.
    + auto.
Qed.

Lemma operation_within this op entity :
  within 4 (operation_on this op entity).
Proof.
  destruct op; unfold operation_on, persist_entity, remove_entity,
    provider_or_new; destruct (queryRunnerProvider this); cbn;
    repeat (let r := fresh "r" in intros [r|r]; cbn); exact I.
Qed.

(** One more call along a trail that ends in a leaf. *)
Ltac next_call H replies res :=
  cbn in H;
  destruct replies as [|? replies];
  [ try (destruct res; discriminate H)
  | let a := fresh "a" in
    let e := fresh "e" in
    let x := fresh "x" in
    destruct H as [x [-> H]]; destruct x as [a|e]; cbn in H ].

(** The result at the leaf a trail ends in. *)
Ltac at_leaf H replies res :=
  destruct replies as [|? replies]; [|cbn in H; contradiction];
  cbn in H;
  destruct res; cbn in H; try discriminate H;
  injection H as <-.

(** A sibling that has settled went through its whole cycle, or failed to
    lease a runner. *)
Lemma operation_cycle this op entity replies res :
  trail (operation_on this op entity) replies (leaf res) ->
  cycle this op entity replies res.
Proof.
  intro H. unfold cycle, uses_provider, makes_provider.
  destruct op; unfold operation_on, persist_entity, remove_entity,
    provider_or_new in H;
    destruct (queryRunnerProvider this) as [p0|] eqn:E.
  all: next_call H replies res.
  all: try next_call H replies res.
  all: try next_call H replies res.
  all: try next_call H replies res.
  all: at_leaf H replies res.
  all: first
    [ solve [left; eexists _, _, _, _; split; [reflexivity|];
             split; reflexivity]
    | solve [left; eexists _, _, _, _; split; [exact I|];
             split; reflexivity]
    | solve [right; left; eexists _, _; split; [reflexivity|];
             split; reflexivity]
    | solve [right; left; eexists _, _; split; [exact I|];
             split; reflexivity]
    | solve [right; right; eexists; split; [reflexivity|];
             split; reflexivity] ].
Qed.

Lemma round_robin_schedules_each k n : schedules_each k n (round_robin k n).
Proof.
  intros i Hi. induction k as [|k IH]; cbn [round_robin]; [lia|].
  rewrite count_occ_app.
  assert (H1 : count_occ Nat.eq_dec (seq 0 n) i = 1).
  { assert (NoDup (seq 0 n)) as Hnd by apply seq_NoDup.
    assert (In i (seq 0 n)) as Hin by (apply in_seq; lia).
    pose proof (proj1 (NoDup_count_occ Nat.eq_dec (seq 0 n)) Hnd i) as Hle.
    pose proof (proj1 (count_occ_In Nat.eq_dec (seq 0 n) i) Hin) as Hge.
    lia. }
  lia.
Qed.

Lemma rejected_in_tasks ts i e :
  nth_error ts i = Some (Settled (Thrown e)) ->
  existsb is_rejected ts = true.
Proof.
  intro H. apply existsb_exists. exists (Settled (Thrown e)).
  split; [eapply nth_error_In; eassumption | reflexivity].
Qed.

Lemma fulfilled_tasks results :
  existsb is_rejected (map (fun v => Settled (Ok v)) results) = false /\
  map slot_of (map (fun v => Settled (Ok v)) results) = map Some results.
Proof.
  induction results as [|v vs [IH1 IH2]]; cbn; [split; reflexivity|].
  rewrite IH1, IH2. split; reflexivity.
Qed.

Section FanOut.

Context {W : Type}.
Variable h : handler W.

(** Five steps settle a sibling: at most four calls, then the settlement. *)
Lemma fan_out_settles this op entities w schedule :
  schedules_each 5 (List.length entities) schedule ->
  forall i entity,
    nth_error entities i = Some entity ->
    exists res,
      nth_error
        (tasks (fst (fst (run_pool h schedule
                            (promise_all (map (operation_on this op) entities))
                            w)))) i
      = Some (Settled res).
Proof.
  intros Hfair i entity He.
  assert (Hm : nth_error
                 (tasks (promise_all (map (operation_on this op) entities))) i
               = Some (Running (operation_on this op entity))).
  { cbn. rewrite !nth_error_map, He. reflexivity. }
  assert (Hlt : i < List.length entities).
  { apply nth_error_Some. rewrite He. discriminate. }
  exact (run_pool_completes h i schedule _ w 4 _ Hm
           (operation_within this op entity) (Hfair i Hlt)).
Qed.

(** Round-robin is such a schedule. *)
Corollary round_robin_settles this op entities w i entity :
  nth_error entities i = Some entity ->
  exists res,
    nth_error
      (tasks (fst (fst (run_pool h (round_robin 5 (List.length entities))
                          (promise_all (map (operation_on this op) entities))
                          w)))) i
    = Some (Settled res).
Proof.
  apply fan_out_settles. apply round_robin_schedules_each.
Qed.

(** C5. [persist] and [remove] on an array hand [Promise.all] one operation
    per element.  However the siblings are interleaved: when all of them
    are fulfilled the aggregate is fulfilled with their results in input
    order; from the first rejection observed on, the aggregate is rejected
    with that error and carries no result, and any rejected sibling means
    there is such a first rejection; every sibling that has settled,
    whatever became of the others, went through its own cycle, as the
    answers its calls got show: once [provide] had answered with a runner
    it delegated to the persister on that runner, released the runner
    whatever the persister answered, and settled as the persister did (or
    as the release did, when that threw); when [provide] threw, or no
    provider could be made, it made no further call and rejected with that
    error; and a schedule that gives each sibling five steps settles them
    all. *)
Theorem fan_out_all_or_first_rejection (this : Repository) (op : Operation)
    (entities : list ObjectLiteral) (w : W) (schedule : list nat) :
  let siblings := map (operation_on this op) entities in
  fan_out this op entities = PromiseAll siblings /\
  forall pl w' events,
    run_pool h schedule (promise_all siblings) w = (pl, w', events) ->
    (forall results,
        tasks pl = map (fun v => Settled (Ok v)) results ->
        aggregate (joined pl) = Some (Ok results)) /\
    (forall e,
        first_rejection events = Some e ->
        aggregate (joined pl) = Some (Thrown e)) /\
    (forall i e,
        nth_error (tasks pl) i = Some (Settled (Thrown e)) ->
        exists e', first_rejection events = Some e') /\
    (forall i entity res,
        nth_error entities i = Some entity ->
        nth_error (tasks pl) i = Some (Settled res) ->
        cycle this op entity (replies_of i events) res) /\
    (schedules_each 5 (List.length entities) schedule ->
     forall i entity,
       nth_error entities i = Some entity ->
       exists res, nth_error (tasks pl) i = Some (Settled res)).
Proof.
  intro siblings. split; [destruct op; reflexivity|].
  intros pl w' events Hrun.
  pose proof (run_pool_joined h schedule _ w _ (promise_all_joined siblings))
    as Hj.
  rewrite Hrun in Hj. cbn [fst snd app] in Hj.
  destruct Hj as (Hs & Ha & Hr).
  split; [|split; [|split; [|split]]].
  - intros results Ht. rewrite Ha, Hs, Ht.
    destruct (fulfilled_tasks results) as [Hnone Hslots].
    rewrite Ht, Hnone in Hr.
    destruct (first_rejection events) as [e|].
    + exfalso. assert (false = true) by (apply Hr; discriminate).
      discriminate.
    + rewrite Hslots, all_some_map_Some. reflexivity.
  - intros e He. rewrite Ha, He. reflexivity.
  - intros i e Hi. apply rejected_in_tasks in Hi. apply Hr in Hi.
    destruct (first_rejection events) as [e'|]; [eauto | contradiction].
  - intros i entity res He Hi.
    assert (Hm : nth_error siblings i = Some (operation_on this op entity)).
    { unfold siblings. rewrite nth_error_map, He. reflexivity. }
    pose proof (run_pool_stands h _ _ schedule _ w _
                  (promise_all_stands _ _ _ Hm))
      as Hst.
    rewrite Hrun in Hst. cbn [fst snd app] in Hst.
    destruct Hst as (m' & Hf & [Ht|(res' & Ht & ->)]);
      rewrite Hi in Ht; [discriminate|].
    inversion Ht; subst res'. apply operation_cycle. assumption.
  - intros Hfair i entity He.
    destruct (fan_out_settles this op entities w schedule Hfair i entity He)
      as [res Hres].
    fold siblings in Hres. rewrite Hrun in Hres. exists res. exact Hres.
Qed.

End FanOut.

(** Two siblings, the second of which the persister refuses.  Both make
    their provider and lease their runner; the second is then refused,
    releases and rejects before the persister has answered the first.  The
    aggregate is rejected with the persister's error, and the first sibling
    still delegates, releases its runner and is fulfilled. *)
Lemma fan_out_all_or_first_rejection_witness :
  let h := mock persist_fails_on_empty in
  let schedule := [0; 1; 0; 1; 1; 1; 1; 0; 0; 0] in
  let siblings := map (operation_on standalone Persisting) [point; []] in
  schedules_each 5 2 schedule /\
  exists pl w' events,
    run_pool h schedule (promise_all siblings) 0 = (pl, w', events) /\
    aggregate (joined pl) = Some (Thrown (VString "nothing to persist")) /\
    tasks pl = [Settled (Ok (VObject point));
                Settled (Thrown (VString "nothing to persist"))] /\
    replies_of 0 events
    = [answered (NewQueryRunnerProvider 0 None) (Ok 7);
       answered (Provide 7) (Ok 107);
       answered (PersisterPersist example_connection example_metadata_xy
                                  107 point) (Ok (VObject point));
       answered (Release 7 107) (Ok tt)] /\
    cycle standalone Persisting point (replies_of 0 events)
          (Ok (VObject point)).
Proof.
  intros h schedule siblings.
  assert (Hfair : schedules_each 5 2 schedule).
  { intros i Hi. destruct i as [|[|i]]; cbn; lia. }
  split; [exact Hfair|].
  eexists _, _, _. split; [reflexivity|].
  destruct (proj2 (fan_out_all_or_first_rejection h standalone Persisting
                     [point; []] 0 schedule) _ _ _ eq_refl)
    as (_ & Hfirst & _ & Hcycle & _).
  split; [|split; [|split]].
  - apply Hfirst. reflexivity.
  - reflexivity.
  - reflexivity.
  - apply (Hcycle 0 point (Ok (VObject point)) eq_refl eq_refl).
Defined.

(** With a persister that accepts both entities the aggregate holds the two
    results in input order, although the second sibling finished first. *)
Example fan_out_in_input_order :
  let schedule := [0; 1; 0; 1; 1; 1; 1; 0; 0; 0] in
  let siblings := map (operation_on standalone Persisting) [point; []] in
  aggregate (joined (fst (fst (run_pool (mock never_fails) schedule
                                        (promise_all siblings) 0))))
  = Some (Ok [VObject point; VObject []]).
Proof. reflexivity. Qed.

(** Before the last sibling settles the aggregate is still pending. *)
Example fan_out_pending :
  let schedule := [0; 1; 0; 1; 1; 1; 1; 0; 0] in
  let siblings := map (operation_on standalone Persisting) [point; []] in
  aggregate (joined (fst (fst (run_pool (mock never_fails) schedule
                                        (promise_all siblings) 0))))
  = None.
Proof. reflexivity. Qed.

(** * Further properties *)

(** ** [hasId] *)

(** X1. On [null] and on [undefined] [hasId] does not throw: the test
    [!!entity] keeps it from reading a property.  It answers [true] when the
    metadata has no primary column and [false] otherwise. *)
Theorem hasId_nullish (metadata : EntityMetadata) :
  let vacuous := match primaryColumns metadata with
                 | [] => true
                 | _ :: _ => false
                 end in
  hasId metadata ENull = (Ok vacuous, ENull) /\
  hasId metadata EUndefined = (Ok vacuous, EUndefined).
Proof.
  intro vacuous. subst vacuous. rewrite !hasId_run.
  destruct (primaryColumns metadata); split; reflexivity.
Qed.








(** ** Find-filter resolution *)

Lemma has_separator_qualified aliasName key :
  has_separator (aliasName ++ "." ++ key) = true.
Proof.
  unfold has_separator.
  induction aliasName as [|a aliasName IH]; cbn in *.
  - reflexivity.
  - rewrite IH. apply orb_true_r.
Qed.

Lemma wheres_of_conditions this conditions options :
  QB.wheres (createFindQueryBuilder this (Some (Conditions conditions)) options)
  = map (equality_predicate
           (resolved_alias this (Some (Conditions conditions)) options))
        (Obj.keys conditions).
Proof.
  rewrite createFindQueryBuilder_calls.
  unfold QB.wheres, resolution_calls.
  cbn [qb_calls flat_map app given_options asConditions].
  rewrite flat_map_app.
  destruct options as [o|]; cbn [flat_map app];
    rewrite ?flat_map_app, flat_map_andWhere, flat_map_singleton;
    cbn [flat_map app]; rewrite app_nil_r; reflexivity.
Qed.

(** X4. The helper never compares an unqualified name: the left side of
    every predicate it adds holds a ["."], being the key itself or the key
    behind the alias, and the parameter on the right is the key as given. *)
Theorem predicates_are_qualified (this : Repository)
    (conditions : ObjectLiteral) (options : option FindOptions)
    (predicate : string) :
  In predicate
     (QB.wheres (createFindQueryBuilder this (Some (Conditions conditions))
                                        options)) ->
  exists key name,
    In key (Obj.keys conditions) /\
    predicate = name ++ "=:" ++ key /\
    (indexOf name "." =? -1)%Z = false /\
    (name = key \/
     name = resolved_alias this (Some (Conditions conditions)) options
            ++ "." ++ key).
Proof.
  rewrite wheres_of_conditions. intro H. apply in_map_iff in H.
  destruct H as [key [<- Hkey]].
  exists key, (qualified (resolved_alias this (Some (Conditions conditions))
                                         options) key).
  split; [assumption|]. split; [reflexivity|]. rewrite indexOf_dot.
  unfold qualified. destruct (has_separator key) eqn:E.
  - rewrite E. split; [reflexivity | left; reflexivity].
  - rewrite has_separator_qualified. split; [reflexivity | right; reflexivity].
Qed.

Lemma predicates_are_qualified_witness :
  exists key name,
    In key ["p.x"; "y"] /\
    "point.y=:y" = name ++ "=:" ++ key /\
    (indexOf name "." =? -1)%Z = false /\
    (name = key \/ name = "point" ++ "." ++ key).
Proof.
  apply (predicates_are_qualified standalone
           [("p.x", VNumber 1); ("y", VNumber 2)] None "point.y=:y").
  right. left. reflexivity.
Defined.

(** ** [findOneById] *)









Lemma bind_columns_values f cols conditions k v :
  Obj.lookup (bind_columns f cols conditions) k = Some v ->
  Obj.lookup conditions k = Some v \/ exists c, In c cols /\ v = f c.
Proof.
  unfold bind_columns. revert conditions.
  induction cols as [|c cols IH]; intros conditions H; cbn [fold_left] in H.
  - left. assumption.
  - apply IH in H. destruct H as [H|[c' [Hc' ->]]].
    + rewrite lookup_set in H.
      destruct (String.eqb (Column.name c) k).
      * right. exists c. split; [left; reflexivity | congruence].
      * left. assumption.
    + right. exists c'. split; [right; assumption | reflexivity].
Qed.












(** X8. [null] or [undefined] as the id of a composite key: reading the
    first key column throws a TypeError, so the call rejects before any
    query is built; with no key column at all nothing is read and the
    conditions are empty. *)
Theorem findOneById_composite_nullish (this : Repository) (id : value)
    (options : option FindOptions) :
  hasMultiplePrimaryKeys (metadata this) = true ->
  is_nullish id ->
  match key_columns (metadata this) with
  | [] => findOneById_conditions (metadata this) id = Ok []
  | _ :: _ => findOneById this id options = Throw TypeError
  end.
Proof.
  intros Hm Hid. unfold findOneById, findOneById_conditions,
    findOneById_fill, key_columns. rewrite Hm.
  destruct (primaryColumns (metadata this)) as [|c cs];
    destruct (parentIdColumns (metadata this)) as [|c' cs'];
    destruct id; try contradiction; reflexivity.
Qed.

Lemma findOneById_composite_nullish_witness :
  findOneById example_repository_composite VNull None = Throw TypeError.
Proof.
  exact (findOneById_composite_nullish example_repository_composite VNull
           None eq_refl I).
Defined.

(** X9. An entity type with no primary and no parent-id column: whatever
    the id, [findOneById] issues the query [findOne] issues for the empty
    conditions object, which filters nothing. *)
Theorem findOneById_without_keys (this : Repository) (id : value)
    (options : option FindOptions) :
  hasMultiplePrimaryKeys (metadata this) = false ->
  primaryColumns (metadata this) = [] ->
  parentIdColumns (metadata this) = [] ->
  findOneById this id options = findOne this (Some (Conditions [])) options /\
  QB.wheres (createFindQueryBuilder this (Some (Conditions [])) options) = [].
Proof.
  intros Hm Hp Hc. split.
  - unfold findOneById, findOneById_conditions, findOneById_fill.
    rewrite Hm, Hp, Hc. reflexivity.
  - rewrite wheres_of_conditions. reflexivity.
Qed.

Lemma findOneById_without_keys_witness :
  let this := example_repository example_metadata_keyless None in
  findOneById this (VNumber 5) None = findOne this (Some (Conditions [])) None.
Proof.
  intro this.
  exact (proj1 (findOneById_without_keys this (VNumber 5) None
                  eq_refl eq_refl eq_refl)).
Defined.



(** ** What the leasing operations call *)

Lemma run_follows {W} (h : handler W) (m : prog value) (w : W) :
  follows m (snd (run h m w)) (leaf (fst (fst (run h m w)))).
Proof.
  revert w. induction m as [v|e|c k IH]; intro w; cbn.
  - reflexivity.
  - reflexivity.
  - destruct (h c w) as [r w1]. specialize (IH r w1).
    destruct (run h (k r) w1) as [[res w2] calls]. cbn in *.
    split; [reflexivity|]. exists r. exact IH.
Qed.

Lemma follows_only_calls P m calls m' :
  follows m calls m' ->
  only_calls P m ->
  Forall (fun c => P c = true) calls /\ only_calls P m'.
Proof.
  revert m. induction calls as [|c calls IH]; intros m Hf Ho.
  - cbn in Hf. subst m'. split; [constructor | assumption].
  - destruct m as [v|e|c0 k]; try contradiction.
    destruct Hf as [<- [r Hf]]. destruct Ho as [Hc Hk].
    destruct (IH (k r) Hf (Hk r)) as [H1 H2].
    split; [constructor; assumption | assumption].
Qed.

Lemma follows_at_most P m calls m' : forall n,
  follows m calls m' ->
  at_most P n m ->
  List.length (filter P calls) <= n.
Proof.
  revert m. induction calls as [|c calls IH]; intros m n Hf Ha.
  - cbn. lia.
  - destruct m as [v|e|c0 k]; try contradiction.
    destruct Hf as [<- [r Hf]]. cbn [filter at_most] in *.
    destruct (P c0).
    + destruct n as [|n]; [contradiction|].
      cbn [List.length]. specialize (IH (k r) n Hf (Ha r)). lia.
    + exact (IH (k r) n Hf (Ha r)).
Qed.

(** Walks a call tree, one answer after the other. *)
Ltac walk_tree :=
  repeat (cbn;
          first [ exact I
                | reflexivity
                | split
                | let r := fresh "r" in intros [r|r] ]).

Lemma single_operation_calls this m :
  single_operation this m ->
  only_calls is_lease_call m /\
  at_most any_call 4 m /\
  at_most is_release 1 m /\
  at_most is_provide 1 m.
Proof.
  intros [entity|entity|sql];
    unfold persist_entity, remove_entity, query, provider_or_new;
    destruct (queryRunnerProvider this); walk_tree.
Qed.

(** X11. Whatever the collaborators answer, [persist], [remove] and [query]
    on one entity make at most four calls, all of them among: making a
    provider, [provide], the delegate call, [release].  They call [provide]
    at most once and [release] at most once, and never [releaseReused],
    not even on a provider they made themselves. *)
Theorem single_operation_never_more {W} (h : handler W) (this : Repository)
    (m : prog value) (w : W) :
  single_operation this m ->
  let calls := snd (run h m w) in
  Forall (fun c => is_lease_call c = true) calls /\
  List.length calls <= 4 /\
  List.length (filter is_provide calls) <= 1 /\
  List.length (filter is_release calls) <= 1 /\
  (forall p, ~ In (ReleaseReused p) calls).
Proof.
  intros Hm calls.
  destruct (single_operation_calls this m Hm) as (Ho & H4 & Hr & Hp).
  pose proof (run_follows h m w) as Hf. fold calls in Hf.
  destruct (follows_only_calls _ _ _ _ Hf Ho) as [Hall _].
  split; [assumption|]. split; [|split; [|split]].
  - pose proof (follows_at_most _ _ _ _ 4 Hf H4) as H.
    replace (filter any_call calls) with calls in H; [assumption|].
    clear. induction calls as [|c cs IH]; cbn; [reflexivity|].
    rewrite <- IH. reflexivity.
  - exact (follows_at_most _ _ _ _ 1 Hf Hp).
  - exact (follows_at_most _ _ _ _ 1 Hf Hr).
  - intros p Hin. rewrite Forall_forall in Hall.
    specialize (Hall _ Hin). discriminate Hall.
Qed.

Lemma single_operation_never_more_witness :
  let calls := snd (run (mock release_fails) (query standalone "SELECT 1") 0) in
  Forall (fun c => is_lease_call c = true) calls /\
  List.length calls <= 4 /\
  List.length (filter is_provide calls) <= 1 /\
  List.length (filter is_release calls) <= 1 /\
  (forall p, ~ In (ReleaseReused p) calls).
Proof.
  exact (single_operation_never_more (mock release_fails) standalone
           (query standalone "SELECT 1") 0
           (single_query standalone "SELECT 1")).
Defined.

(** X12. A repository constructed with a provider never makes one: the
    first call of [persist], [remove], [query] and [transaction] is
    [provide] on the provider given, and the three operations on one entity
    make no provider later either. *)
Theorem given_provider_is_used {W} (h : handler W) (this : Repository)
    (p : QueryRunnerProvider) (w : W) :
  queryRunnerProvider this = Some p ->
  (forall m, single_operation this m ->
             exists rest,
               snd (run h m w) = Provide p :: rest /\
               Forall (fun c => is_new_provider c = false) rest) /\
  (forall work, exists rest,
      snd (run h (transaction this work) w) = Provide p :: rest).
Proof.
  intro Hp. split.
  - intros m Hm.
    assert (Ho : only_calls (fun c => negb (is_new_provider c)) m).
    { destruct Hm as [entity|entity|sql];
        unfold persist_entity, remove_entity, query, provider_or_new;
        rewrite Hp; walk_tree. }
    pose proof (run_follows h m w) as Hf.
    destruct (follows_only_calls _ _ _ _ Hf Ho) as [Hall _].
    assert (Hfirst : exists rest, snd (run h m w) = Provide p :: rest).
    { destruct Hm as [entity|entity|sql];
        unfold persist_entity, remove_entity, query, provider_or_new;
        rewrite Hp; cbn; destruct (h (Provide p) w) as [r w1];
        match goal with
        | |- context [run h ?k w1] => destruct (run h k w1) as [[? ?] ?]
        end; eexists; reflexivity. }
    destruct Hfirst as [rest Hrest]. exists rest. split; [assumption|].
    rewrite Hrest in Hall. inversion Hall as [|c cs _ Hcs]; subst.
    eapply Forall_impl; [|exact Hcs]. intros c Hc.
    apply negb_true_iff. exact Hc.
  - intro work. unfold transaction, provider_or_new. rewrite Hp. cbn.
    destruct (h (Provide p) w) as [r w1].
    match goal with
    | |- context [run h ?k w1] => destruct (run h k w1) as [[? ?] ?]
    end. eexists. reflexivity.
Qed.

Lemma given_provider_is_used_witness :
  exists rest,
    snd (run (mock never_fails) (persist_entity provided point) 0)
    = Provide 3 :: rest /\
    Forall (fun c => is_new_provider c = false) rest.
Proof.
  exact (proj1 (given_provider_is_used (mock never_fails) provided 3 0
                  eq_refl)
               _ (single_persist provided point)).
Defined.

(** ** More on [transaction] *)

Section Transactions.

Context {W : Type}.
Variable h : handler W.

Lemma body_returns_inv r work repo w1 v w2 body :
  run h (transaction_body r work repo) w1 = (Ok v, w2, body) ->
  exists wb ww calls_of_work,
    h (BeginTransaction r) w1 = (Ok tt, wb) /\
    run h (work repo) wb = (Ok v, ww, calls_of_work) /\
    h (CommitTransaction r) ww = (Ok tt, w2) /\
    body = (BeginTransaction r :: calls_of_work
              ++ [CommitTransaction r])%list.
Proof.
  intro H.
  destruct (h (BeginTransaction r) w1) as [[[]|eb] wb] eqn:Hb.
  - destruct (run h (work repo) wb) as [[[v'|ew] ww] cw] eqn:Hw.
    + rewrite (run_body_returns h r work repo Hb Hw) in H.
      destruct (h (CommitTransaction r) ww) as [[[]|ec] wc] eqn:Hc.
      * inversion H; subst. exists wb, ww, cw. repeat split; assumption.
      * destruct (h (RollbackTransaction r) wc) as [[[]|er] wr];
          discriminate H.
    + rewrite (run_body_throws h r work repo Hb Hw) in H.
      destruct (h (RollbackTransaction r) ww) as [[[]|er] wr];
        discriminate H.
  - rewrite (run_body_no_begin h r work repo Hb) in H.
    destruct (h (RollbackTransaction r) wb) as [[[]|er] wr]; discriminate H.
Qed.

Lemma cleanup_returns_inv this p r w2 u w3 calls :
  run h (transaction_cleanup this p r) w2 = (Ok u, w3, calls) ->
  cleanup_returns h this p r w2 w3 /\ calls = releases this p r.
Proof.
  rewrite run_transaction_cleanup. unfold cleanup_returns, releases.
  destruct (h (Release p r) w2) as [[[]|e] wr] eqn:Hr; [|discriminate].
  destruct (queryRunnerProvider this) as [p0|].
  - intro H. inversion H; subst. split; [|reflexivity].
    exists w3. split; reflexivity.
  - destruct (h (ReleaseReused p) wr) as [[[]|e] wu] eqn:Hu;
      cbn [fst snd]; [|discriminate].
    intro H. inversion H; subst. split; [|reflexivity].
    exists wr. split; [reflexivity | assumption].
Qed.

(** X13. [transaction] returns a value only after a commit: if it returns
    [v], the transaction began, the work returned [v], [commitTransaction]
    returned and so did the cleanup, and no rollback was called. *)
Theorem transaction_returns_only_committed (this : Repository)
    (work : Repository -> prog value) (w : W)
    (p : QueryRunnerProvider) (r : QueryRunner) (w1 : W) (pre : list call)
    (v : value) (w' : W) (calls : list call) :
  leased h this (Some true) w p r w1 pre ->
  run h (transaction this work) w = (Ok v, w', calls) ->
  exists wb ww wc calls_of_work,
    h (BeginTransaction r) w1 = (Ok tt, wb) /\
    run h (work (scoped this p)) wb = (Ok v, ww, calls_of_work) /\
    h (CommitTransaction r) ww = (Ok tt, wc) /\
    cleanup_returns h this p r wc w' /\
    calls = (pre ++ BeginTransaction r :: calls_of_work
                 ++ CommitTransaction r :: releases this p r)%list.
Proof.
  intros Hl Hrun. rewrite (run_transaction h work Hl) in Hrun.
  destruct (run h (transaction_body r work (scoped this p)) w1)
    as [[res w2] body] eqn:Hbody.
  destruct (run h (transaction_cleanup this p r) w2)
    as [[done w3] cleanup] eqn:Hcleanup.
  destruct done as [u|e]; [|discriminate Hrun].
  cbn [after_cleanup] in Hrun. inversion Hrun; subst res w3 calls.
  destruct (body_returns_inv _ _ _ _ _ _ _ Hbody)
    as (wb & ww & cw & Hb & Hw & Hc & ->).
  destruct (cleanup_returns_inv _ _ _ _ _ _ _ Hcleanup) as [Hcl ->].
  exists wb, ww, w2, cw. repeat split; try assumption.
  cbn [app]. rewrite <- app_assoc. reflexivity.
Qed.

(** X14. When [commitTransaction] throws, the work's result is dropped:
    the rollback is called and, the cleanup returning, the caller gets the
    error of the commit, or the error of the rollback if that throws too. *)
Theorem transaction_commit_fails (this : Repository)
    (work : Repository -> prog value) (w : W)
    (p : QueryRunnerProvider) (r : QueryRunner) (w1 : W) (pre : list call)
    (wb ww wc wr w' : W) (v e : value) (calls_of_work : list call)
    (rolled : outcome unit) :
  leased h this (Some true) w p r w1 pre ->
  h (BeginTransaction r) w1 = (Ok tt, wb) ->
  run h (work (scoped this p)) wb = (Ok v, ww, calls_of_work) ->
  h (CommitTransaction r) ww = (Thrown e, wc) ->
  h (RollbackTransaction r) wc = (rolled, wr) ->
  cleanup_returns h this p r wr w' ->
  run h (transaction this work) w
  = (after_cleanup (Thrown e) rolled, w',
     (pre ++ BeginTransaction r :: calls_of_work
          ++ CommitTransaction r :: RollbackTransaction r
          :: releases this p r)%list).
Proof.
  intros Hl Hb Hw Hc Hr Hcl.
  pose proof (run_body_returns h r work (scoped this p) Hb Hw) as Hbody.
  rewrite Hc, Hr in Hbody. cbn [fst snd] in Hbody.
  rewrite (transaction_completes h work Hl Hbody Hcl).
  cbn [app]. rewrite <- app_assoc. reflexivity.
Qed.

(** X15. When [beginTransaction] throws, the work is not called: the calls
    and the outcome are the same for every work function.  The rollback is
    still called, on the transaction that did not begin, and the runner is
    released; the caller gets the error of the rollback if it throws too,
    and the error of the begin otherwise. *)
Theorem transaction_never_begun (this : Repository) (w : W)
    (p : QueryRunnerProvider) (r : QueryRunner) (w1 : W) (pre : list call)
    (wb wr w' : W) (e : value) (rolled : outcome unit) :
  leased h this (Some true) w p r w1 pre ->
  h (BeginTransaction r) w1 = (Thrown e, wb) ->
  h (RollbackTransaction r) wb = (rolled, wr) ->
  cleanup_returns h this p r wr w' ->
  forall work,
    run h (transaction this work) w
    = (after_cleanup (Thrown e) rolled, w',
       (pre ++ BeginTransaction r :: RollbackTransaction r
            :: releases this p r)%list).
Proof.
  intros Hl Hb Hr Hcl work.
  pose proof (run_body_no_begin h r work (scoped this p) Hb) as Hbody.
  rewrite Hr in Hbody. cbn [fst snd] in Hbody.
  rewrite (transaction_completes h work Hl Hbody Hcl). reflexivity.
Qed.

(** X16. When no runner can be leased, because making the provider or
    [provide] throws, the operation rejects with that error having made no
    other call: nothing is delegated, no transaction begins, nothing is
    released. *)
Theorem nothing_after_failed_lease (this : Repository) (w : W) (e : value)
    (w' : W) (pre : list call) :
  (lease_fails h this None w e w' pre ->
   (forall entity,
       run h (persist_entity this entity) w = (Thrown e, w', pre)) /\
   (forall sql, run h (query this sql) w = (Thrown e, w', pre))) /\
  (lease_fails h this (Some true) w e w' pre ->
   (forall entity,
       run h (remove_entity this entity) w = (Thrown e, w', pre)) /\
   (forall work, run h (transaction this work) w = (Thrown e, w', pre))) /\
  (forall flag,
      lease_fails h this flag w e w' pre ->
      Forall (fun c => is_new_provider c || is_provide c = true) pre /\
      List.length (filter is_provide pre) <= 1).
Proof.
  split; [|split].
  - intro Hf. split; intros; apply run_lease_fails; assumption.
  - intro Hf. split; intros; apply run_lease_fails; assumption.
  - intro flag. unfold lease_fails.
    destruct (queryRunnerProvider this) as [p0|].
    + intros [_ ->]. split; [repeat constructor | cbn; lia].
    + intros [[_ ->]|(p & w0 & _ & _ & ->)];
        (split; [repeat constructor | cbn; lia]).
Qed.

(** X17. A cleanup call that throws decides the outcome, even of a
    transaction that has committed: when [release] throws, its error is the
    outcome and [releaseReused] is not called, on a provider the repository
    made itself either; when [releaseReused] throws, its error is the
    outcome. *)
Theorem transaction_cleanup_throws (this : Repository)
    (work : Repository -> prog value) (w : W)
    (p : QueryRunnerProvider) (r : QueryRunner) (w1 : W) (pre : list call)
    (res : outcome value) (w2 : W) (body : list call) :
  leased h this (Some true) w p r w1 pre ->
  run h (transaction_body r work (scoped this p)) w1 = (res, w2, body) ->
  (forall e w3,
      h (Release p r) w2 = (Thrown e, w3) ->
      run h (transaction this work) w
      = (Thrown e, w3, (pre ++ body ++ [Release p r])%list)) /\
  (forall e w3 w4,
      queryRunnerProvider this = None ->
      h (Release p r) w2 = (Ok tt, w3) ->
      h (ReleaseReused p) w3 = (Thrown e, w4) ->
      run h (transaction this work) w
      = (Thrown e, w4,
         (pre ++ body ++ [Release p r; ReleaseReused p])%list)).
Proof.
  intros Hl Hbody. split.
  - intros e w3 Hr. rewrite (run_transaction h work Hl), Hbody.
    rewrite run_transaction_cleanup, Hr. reflexivity.
  - intros e w3 w4 Hq Hr Hu. rewrite (run_transaction h work Hl), Hbody.
    rewrite run_transaction_cleanup, Hr, Hq, Hu. reflexivity.
Qed.

End Transactions.

Lemma transaction_returns_only_committed_witness :
  let h := mock never_fails in
  exists wb ww wc calls_of_work,
    h (BeginTransaction 107) 2 = (Ok tt, wb) /\
    run h (work_persists (scoped standalone 7)) wb
    = (Ok (VObject point), ww, calls_of_work) /\
    h (CommitTransaction 107) ww = (Ok tt, wc) /\
    cleanup_returns h standalone 7 107 wc 9 /\
    snd (run h (transaction standalone work_persists) 0)
    = (standalone_lease (Some true) ++ BeginTransaction 107 :: calls_of_work
         ++ CommitTransaction 107 :: releases standalone 7 107)%list.
Proof.
  intro h.
  exact (transaction_returns_only_committed h standalone work_persists
           0 7 107 2 (standalone_lease (Some true)) (VObject point) 9 _
           (standalone_leased never_fails (Some true) eq_refl eq_refl)
           eq_refl).
Defined.

Lemma transaction_commit_fails_witness :
  run (mock commit_fails) (transaction standalone work_persists) 0
  = (Thrown (VString "commit failed"), 10,
     (standalone_lease (Some true) ++ BeginTransaction 107
        :: nested_persist_calls
        ++ [CommitTransaction 107; RollbackTransaction 107;
            Release 7 107; ReleaseReused 7])%list).
Proof.
  exact (transaction_commit_fails (mock commit_fails) standalone
           work_persists 0 7 107 2 (standalone_lease (Some true))
           3 6 7 8 10 (VObject point) (VString "commit failed")
           nested_persist_calls (Ok tt)
           (standalone_leased commit_fails (Some true) eq_refl eq_refl)
           eq_refl eq_refl eq_refl eq_refl
           (standalone_cleanup commit_fails 8 eq_refl eq_refl)).
Defined.

Lemma transaction_never_begun_witness :
  run (mock begin_fails) (transaction standalone work_persists) 0
  = (Thrown (VString "begin failed"), 6,
     (standalone_lease (Some true)
        ++ [BeginTransaction 107; RollbackTransaction 107;
            Release 7 107; ReleaseReused 7])%list).
Proof.
  exact (transaction_never_begun (mock begin_fails) standalone
           0 7 107 2 (standalone_lease (Some true)) 3 4 6
           (VString "begin failed") (Ok tt)
           (standalone_leased begin_fails (Some true) eq_refl eq_refl)
           eq_refl eq_refl
           (standalone_cleanup begin_fails 4 eq_refl eq_refl)
           work_persists).
Defined.

Lemma nothing_after_failed_lease_witness :
  run (mock provide_fails) (persist_entity standalone point) 0
  = (Thrown (VString "pool exhausted"), 2,
     [NewQueryRunnerProvider 0 None; Provide 7]).
Proof.
  apply (proj1 (nothing_after_failed_lease (mock provide_fails) standalone 0
                  (VString "pool exhausted") 2
                  [NewQueryRunnerProvider 0 None; Provide 7])).
  right. exists 7, 1. repeat split.
Defined.

Lemma transaction_cleanup_throws_witness :
  run (mock release_fails) (transaction standalone work_returns) 0
  = (Thrown (VString "release failed"), 5,
     (standalone_lease (Some true)
        ++ [BeginTransaction 107; CommitTransaction 107; Release 7 107])%list).
Proof.
  exact (proj1 (transaction_cleanup_throws (mock release_fails) standalone
                  work_returns 0 7 107 2 (standalone_lease (Some true))
                  (Ok (VNumber 1)) 4
                  [BeginTransaction 107; CommitTransaction 107]
                  (standalone_leased release_fails (Some true)
                     eq_refl eq_refl)
                  eq_refl)
               (VString "release failed") 5 eq_refl).
Defined.

(** ** More on the fan-out *)

Section FanOutMore.

Context {W : Type}.
Variable h : handler W.

Lemma run_pool_app s1 s2 pl w :
  run_pool h (s1 ++ s2) pl w
  = let pl1 := fst (fst (run_pool h s1 pl w)) in
    let w1 := snd (fst (run_pool h s1 pl w)) in
    (fst (fst (run_pool h s2 pl1 w1)),
     snd (fst (run_pool h s2 pl1 w1)),
     (snd (run_pool h s1 pl w) ++ snd (run_pool h s2 pl1 w1))%list).
Proof.
  revert pl w. induction s1 as [|i s1 IH]; intros pl w.
  - cbn. destruct (run_pool h s2 pl w) as [[pl2 w2] ev2]. reflexivity.
  - cbn [app]. rewrite !run_pool_cons. cbn [fst snd]. rewrite IH.
    cbn [fst snd]. rewrite app_assoc. reflexivity.
Qed.

(** X18. [persist([])] and [remove([])]: [Promise.all] of no sibling is
    fulfilled with the empty array from the start; no schedule makes a call
    or changes the collaborators. *)
Theorem fan_out_empty (this : Repository) (op : Operation) (w : W)
    (schedule : list nat) :
  fan_out this op [] = PromiseAll [] /\
  aggregate (joined (promise_all [])) = Some (Ok []) /\
  run_pool h schedule (promise_all []) w = (promise_all [], w, []).
Proof.
  split; [destruct op; reflexivity|]. split; [reflexivity|].
  induction schedule as [|i schedule IH]; [reflexivity|].
  rewrite run_pool_cons.
  assert (Hstep : step h i (promise_all []) w = (promise_all [], w, [])).
  { unfold step. cbn [promise_all map tasks]. destruct i; reflexivity. }
  rewrite Hstep. cbn [fst snd]. rewrite IH. reflexivity.
Qed.

Lemma step_aggregate i pl w a :
  aggregate (joined pl) = Some a ->
  aggregate (joined (fst (fst (step h i pl w)))) = Some a.
Proof.
  intro Ha. unfold step.
  destruct (nth_error (tasks pl) i) as [[[v|e|c k]|res]|]; cbn;
    try assumption.
  - rewrite Ha. reflexivity.
  - rewrite Ha. reflexivity.
  - destruct (h c w) as [r w1]. cbn. assumption.
Qed.

Lemma run_pool_aggregate schedule pl w a :
  aggregate (joined pl) = Some a ->
  aggregate (joined (fst (fst (run_pool h schedule pl w)))) = Some a.
Proof.
  revert pl w. induction schedule as [|i schedule IH]; intros pl w Ha.
  - assumption.
  - rewrite run_pool_cons. cbn [fst snd]. apply IH, step_aggregate, Ha.
Qed.

(** X19. The aggregate of [persist] or [remove] on an array settles once:
    whatever it is after some steps, fulfilled or rejected, it is the same
    after any further steps of the siblings. *)
Theorem fan_out_settles_once (this : Repository) (op : Operation)
    (entities : list ObjectLiteral) (w : W) (first more : list nat)
    (settled : outcome (list value)) :
  let siblings := map (operation_on this op) entities in
  aggregate (joined (fst (fst (run_pool h first (promise_all siblings) w))))
  = Some settled ->
  aggregate
    (joined (fst (fst (run_pool h (first ++ more) (promise_all siblings) w))))
  = Some settled.
Proof.
  intros siblings Ha. rewrite run_pool_app. cbn [fst snd].
  apply run_pool_aggregate. exact Ha.
Qed.

Lemma step_events i pl w :
  Forall (fun ev => sibling_of ev < List.length (tasks pl))
         (snd (step h i pl w)).
Proof.
  unfold step.
  destruct (nth_error (tasks pl) i) as [[[v|e|c k]|res]|] eqn:Hi;
    try (destruct (h c w) as [r w1]); cbn [snd]; repeat constructor;
    cbn [sibling_of]; apply nth_error_Some; rewrite Hi; discriminate.
Qed.

Lemma run_pool_events schedule pl w :
  Forall (fun ev => sibling_of ev < List.length (tasks pl))
         (snd (run_pool h schedule pl w)).
Proof.
  revert pl w. induction schedule as [|i schedule IH]; intros pl w.
  - constructor.
  - rewrite run_pool_cons. cbn [fst snd]. apply Forall_app. split.
    + apply step_events.
    + specialize (IH (fst (fst (step h i pl w))) (snd (fst (step h i pl w)))).
      rewrite step_length in IH. exact IH.
Qed.

Lemma calls_of_stranger i events n :
  Forall (fun ev => sibling_of ev < n) events ->
  n <= i ->
  calls_of i events = [].
Proof.
  intros H Hi. induction H as [|ev events Hev _ IH]; [reflexivity|].
  unfold calls_of in *. cbn [flat_map]. rewrite IH.
  destruct ev as [j c a|j res]; [|reflexivity]. cbn [sibling_of] in Hev.
  destruct (Nat.eqb_spec j i); [lia | reflexivity].
Qed.

Lemma operation_is_single this op entity :
  single_operation this (operation_on this op entity).
Proof. destruct op; constructor. Qed.

(** X20. However long and however unfair the schedule, a sibling of
    [persist] or [remove] on an array makes no other calls than those of
    its own lease and its delegate call, at most four of them, with at most
    one [provide] and one [release]; and no call comes from anything but a
    sibling. *)
Theorem fan_out_sibling_bounds (this : Repository) (op : Operation)
    (entities : list ObjectLiteral) (w : W) (schedule : list nat) (i : nat) :
  let siblings := map (operation_on this op) entities in
  let calls :=
    calls_of i (snd (run_pool h schedule (promise_all siblings) w)) in
  Forall (fun c => is_lease_call c = true) calls /\
  List.length calls <= 4 /\
  List.length (filter is_provide calls) <= 1 /\
  List.length (filter is_release calls) <= 1 /\
  (List.length entities <= i -> calls = []).
Proof.
  intros siblings calls.
  assert (Hout : List.length entities <= i -> calls = []).
  { intro Hi. eapply calls_of_stranger; [apply run_pool_events|].
    cbn [promise_all tasks]. unfold siblings. rewrite !length_map. exact Hi. }
  destruct (nth_error entities i) as [entity|] eqn:He.
  - assert (Hm : nth_error siblings i = Some (operation_on this op entity)).
    { unfold siblings. rewrite nth_error_map, He. reflexivity. }
    pose proof (run_pool_stands h _ _ schedule _ w _
                  (promise_all_stands _ _ _ Hm)) as (m' & Hf & _).
    cbn [app] in Hf. apply trail_follows in Hf.
    rewrite <- calls_of_replies in Hf.
    fold siblings in Hf. fold calls in Hf.
    destruct (single_operation_calls this _
                (operation_is_single this op entity))
      as (Ho & H4 & Hr & Hp).
    destruct (follows_only_calls _ _ _ _ Hf Ho) as [Hall _].
    split; [assumption|]. split; [|split; [|split]].
    + pose proof (follows_at_most _ _ _ _ 4 Hf H4) as H.
      replace (filter any_call calls) with calls in H; [assumption|].
      clear. induction calls as [|c cs IH]; cbn; [reflexivity|].
      rewrite <- IH. reflexivity.
    + exact (follows_at_most _ _ _ _ 1 Hf Hp).
    + exact (follows_at_most _ _ _ _ 1 Hf Hr).
    + assumption.
  - apply nth_error_None in He. rewrite (Hout He). cbn.
    repeat split; try constructor; try lia.
Qed.

End FanOutMore.

Lemma pending_slots ts :
  existsb is_rejected ts = false ->
  (all_some (map slot_of ts) = None <-> existsb is_running ts = true).
Proof.
  induction ts as [|[m|[v|e]] ts IH]; cbn; intro Hr.
  - split; discriminate.
  - split; reflexivity.
  - specialize (IH Hr). destruct (all_some (map slot_of ts)).
    + split; [discriminate|]. intro H. apply IH in H. discriminate.
    + split; [intros _; apply IH; reflexivity | reflexivity].
  - discriminate.
Qed.

Section FanOutStates.

Context {W : Type}.
Variable h : handler W.

(** X21. The aggregate of [persist] or [remove] on an array is pending
    exactly while no rejection has been observed and some sibling has not
    settled yet. *)
Theorem fan_out_pending_while_running (this : Repository) (op : Operation)
    (entities : list ObjectLiteral) (w : W) (schedule : list nat) :
  let siblings := map (operation_on this op) entities in
  let pl := fst (fst (run_pool h schedule (promise_all siblings) w)) in
  let events := snd (run_pool h schedule (promise_all siblings) w) in
  aggregate (joined pl) = None
  <-> first_rejection events = None /\ existsb is_running (tasks pl) = true.
Proof.
  intros siblings pl events.
  pose proof (run_pool_joined h schedule _ w _ (promise_all_joined siblings))
    as (Hs & Ha & Hr).
  cbn [app] in Ha, Hr. fold pl in Hs, Ha, Hr. fold events in Ha, Hr.
  rewrite Ha, Hs. destruct (first_rejection events) as [e|].
  - split; [discriminate | intros [H _]; discriminate].
  - assert (Hnone : existsb is_rejected (tasks pl) = false).
    { destruct (existsb is_rejected (tasks pl)); [|reflexivity].
      exfalso. apply (proj1 Hr); reflexivity. }
    pose proof (pending_slots (tasks pl) Hnone) as Hp.
    destruct (all_some (map slot_of (tasks pl))) as [vs|]; cbn.
    + split; [discriminate|]. intros [_ H]. apply Hp in H. discriminate.
    + split; [|reflexivity]. intros _. split; [reflexivity|].
      apply Hp. reflexivity.
Qed.

Lemma settled_pool_idle k res j w :
  run_pool h (repeat 0 k) {| tasks := [Settled res]; joined := j |} w
  = ({| tasks := [Settled res]; joined := j |}, w, []).
Proof.
  induction k as [|k IH]; [reflexivity|].
  cbn [repeat]. rewrite run_pool_cons. cbn [step nth_error tasks fst snd].
  rewrite IH. reflexivity.
Qed.

(** A pool of one sibling, stepped often enough, does what [run] does. *)
Lemma single_sibling_run m : forall n k w,
  within n m ->
  n < k ->
  let out := run_pool h (repeat 0 k)
               {| tasks := [Running m]; joined := join_start 1 |} w in
  fst out
  = ({| tasks := [Settled (fst (fst (run h m w)))];
        joined := {| slots := [slot_of (Settled (fst (fst (run h m w))))];
                     aggregate :=
                       Some (singleton_aggregate (fst (fst (run h m w)))) |} |},
     snd (fst (run h m w))) /\
  calls_of 0 (snd out) = snd (run h m w).
Proof.
  induction m as [v|e|c k0 IH]; intros n k w Hn Hk; cbn zeta.
  - destruct k as [|k]; [lia|]. cbn [repeat]. rewrite run_pool_cons.
    cbn [step nth_error tasks fst snd set_nth joined].
    rewrite settled_pool_idle. split; reflexivity.
  - destruct k as [|k]; [lia|]. cbn [repeat]. rewrite run_pool_cons.
    cbn [step nth_error tasks fst snd set_nth joined].
    rewrite settled_pool_idle. split; reflexivity.
  - destruct k as [|k]; [lia|]. destruct n as [|n]; [contradiction|].
    cbn [repeat]. rewrite run_pool_cons.
    cbn [step nth_error tasks run]. destruct (h c w) as [r w1].
    cbn [fst snd set_nth tasks joined].
    specialize (IH r n k w1 (Hn r) ltac:(lia)). cbn zeta in IH.
    destruct IH as [H1 H2].
    destruct (run_pool h (repeat 0 k) _ w1) as [[pl2 w2] ev2].
    destruct (run h (k0 r) w1) as [[res w2'] calls].
    cbn [fst snd] in *. split; [exact H1|].
    rewrite calls_of_app, H2. reflexivity.
Qed.

(** X22. An array of one entity: stepped five times or more, the fan-out
    makes the calls the operation on that entity makes alone and leaves the
    collaborators as it does; the aggregate is fulfilled with the one
    result in an array when the operation returns, and rejected with its
    error when it throws. *)
Theorem fan_out_singleton (this : Repository) (op : Operation)
    (entity : ObjectLiteral) (w : W) (k : nat) :
  5 <= k ->
  let alone := run h (operation_on this op entity) w in
  let together :=
    run_pool h (repeat 0 k)
             (promise_all (map (operation_on this op) [entity])) w in
  aggregate (joined (fst (fst together)))
  = Some (singleton_aggregate (fst (fst alone))) /\
  snd (fst together) = snd (fst alone) /\
  calls_of 0 (snd together) = snd alone.
Proof.
  intros Hk alone together. unfold together, promise_all.
  cbn [map List.length].
  destruct (single_sibling_run _ 4 k w (operation_within this op entity)
              ltac:(lia)) as [H1 H2].
  cbn zeta in H1, H2. fold alone in H1, H2.
  rewrite H1, H2. cbn [fst snd joined aggregate]. repeat split.
Qed.

End FanOutStates.

Lemma fan_out_singleton_witness :
  let alone := run (mock persist_fails) (persist_entity standalone point) 0 in
  let together :=
    run_pool (mock persist_fails) (repeat 0 5)
             (promise_all (map (operation_on standalone Persisting) [point]))
             0 in
  aggregate (joined (fst (fst together)))
  = Some (singleton_aggregate (fst (fst alone))) /\
  snd (fst together) = snd (fst alone) /\
  calls_of 0 (snd together) = snd alone.
Proof.
  exact (fan_out_singleton (mock persist_fails) standalone Persisting point
           0 5 (le_n 5)).
Defined.

Lemma fan_out_settles_once_witness :
  let siblings := map (operation_on standalone Persisting) [point; []] in
  aggregate
    (joined (fst (fst (run_pool (mock persist_fails_on_empty)
                                ([1; 1; 1; 1; 1] ++ [0; 0; 0; 0; 0])
                                (promise_all siblings) 0))))
  = Some (Thrown (VString "nothing to persist")).
Proof.
  exact (fan_out_settles_once (mock persist_fails_on_empty) standalone
           Persisting [point; []] 0 [1; 1; 1; 1; 1] [0; 0; 0; 0; 0]
           (Thrown (VString "nothing to persist")) eq_refl).
Defined.

Lemma fan_out_sibling_bounds_witness :
  let siblings := map (operation_on standalone Persisting) [point; []] in
  let schedule := [0; 0; 0; 0; 0; 0; 0; 0; 2; 2] in
  let calls :=
    calls_of 2 (snd (run_pool (mock never_fails) schedule
                              (promise_all siblings) 0)) in
  Forall (fun c => is_lease_call c = true) calls /\
  List.length calls <= 4 /\
  List.length (filter is_provide calls) <= 1 /\
  List.length (filter is_release calls) <= 1 /\
  calls = [].
Proof.
  intros siblings schedule calls.
  destruct (fan_out_sibling_bounds (mock never_fails) standalone Persisting
              [point; []] 0 schedule 2) as (H1 & H2 & H3 & H4 & H5).
  split; [exact H1|]. split; [exact H2|]. split; [exact H3|].
  split; [exact H4|]. apply H5. cbn. lia.
Defined.
